(** * The [opensearch] management command of django-opensearch-dsl

    A shallow embedding of
    [django_opensearch_dsl/management/commands/opensearch.py]: the filter
    parser [Command.db_filter] and the document sub-command
    [Command._manage_document], with the properties of the specification
    stated over them.

    Python strings are [string]s, Python lists are [list]s, the set
    [unknown] is a [gset string], and the side effects of the command
    (writes to stdout and stderr, reads of stdin, calls to the document
    mappings, [exit]) are threaded through a small monad [M]. *)

From Stdlib Require Import ZArith String Ascii.
From stdpp Require Import base decidable option list strings gmap.

Local Open Scope string_scope.
Local Open Scope list_scope.
Local Open Scope Z_scope.

Set Warnings "-register-all".

(** ** Python string primitives *)

(** [str.lower], on the ASCII range: ['A'..'Z'] go to ['a'..'z'], every
    other character is left as it is. *)
Definition lower_ascii (c : ascii) : ascii :=
  let n := nat_of_ascii c in
  if (Nat.leb 65 n && Nat.leb n 90)%bool then ascii_of_nat (n + 32)%nat else c.

Fixpoint lower (s : string) : string :=
  match s with
  | EmptyString => EmptyString
  | String c r => String (lower_ascii c) (lower r)
  end.

(** [s.split(sep)] for a one-character separator: every occurrence of
    [sep] cuts, so a string with [n] separators gives [n + 1] pieces. *)
Fixpoint split (sep : ascii) (s : string) : list string :=
  match s with
  | EmptyString => [EmptyString]
  | String c r =>
      if Ascii.eqb c sep then EmptyString :: split sep r
      else match split sep r with
           | piece :: pieces => String c piece :: pieces
           | [] => [String c EmptyString]
           end
  end.

(** Number of occurrences of a character, [s.count(c)]. *)
Fixpoint occurrences (c : ascii) (s : string) : nat :=
  match s with
  | EmptyString => 0%nat
  | String d r => ((if Ascii.eqb d c then 1 else 0) + occurrences c r)%nat
  end.

(** [x in l] *)
Definition py_in {A} `{EqDecision A} (x : A) (l : list A) : bool :=
  bool_decide (x ∈ l).

(** ** Values, predicates and the collaborators' data *)

(** Modelled from the spec: the values a filter is coerced to by
    [management/types.py] (§4.1: null, float, integer, date, list,
    string).  A float and a date are kept as their literal text, the
    command never computes with them. *)
Inductive Value :=
| VNone
| VFloat (literal : string)
| VInt (n : Z)
| VDate (iso : string)
| VList (items : list Value)
| VStr (s : string).

(** Django's [Q] objects, as far as the command builds them:
    a single keyword lookup [Q(k=v)] and the conjunction [q1 & q2]. *)
Inductive Q :=
| QLeaf (k : string) (v : Value)
| QAnd (q1 q2 : Q).

(** Modelled from the spec: the members of [management/enums.py]'s
    [OpensearchAction] (§4.2), each with its name and its past tense. *)
Inductive OpensearchAction := INDEX | UPDATE | DELETE | CREATE | REBUILD.

Global Instance OpensearchAction_eq_dec : EqDecision OpensearchAction.
Proof. solve_decision. Defined.

Definition value (a : OpensearchAction) : string :=
  match a with
  | INDEX => "index" | UPDATE => "update" | DELETE => "delete"
  | CREATE => "create" | REBUILD => "rebuild"
  end.

Definition past (a : OpensearchAction) : string :=
  match a with
  | INDEX => "indexed" | UPDATE => "updated" | DELETE => "deleted"
  | CREATE => "created" | REBUILD => "rebuilded"
  end.

(** A Django model class: classes are compared by identity ([model_key]),
    and carry a [__name__]. *)
Record Model := { model_key : nat; __name__ : string }.

Global Instance Model_eq_dec : EqDecision Model.
Proof. solve_decision. Defined.

(** A row of the relational store. *)
Definition Row := list (string * Value).

(** A per-document failure descriptor of the engine: a dict from the
    operation name to a dict of fields. *)
Abbreviation Descriptor := (gmap string (gmap string string)).

(** The keyword arguments remembered in [kwargs_list]; [kw_db_alias] is
    [None] when the dict has no ["db_alias"] key. *)
Record Kwargs := {
  kw_db_alias : option (option string);
  kw_filter_ : option Q;
  kw_exclude : option Q;
  kw_count : option Z
}.

(** The arguments of [get_indexing_queryset]. *)
Record IndexingArgs := {
  ia_verbose : Z;
  ia_action : OpensearchAction;
  ia_batch_size : option Z;
  ia_batch_type : string;
  ia_kwargs : Kwargs
}.

(** A document mapping.  [get_queryset] stands for
    [get_queryset(filter_, exclude, count).count()]: [inl e] when the store
    raises [FieldError(e)], [inr n] for a count of [n].  [bulk] is the
    engine's verdict on one document: [None] when it is accepted, the
    failure descriptor when it is rejected. *)
Record Document := {
  django_model : Model;
  Index_name : string;
  get_queryset : option Q -> option Q -> option Z -> string + Z;
  get_indexing_queryset : IndexingArgs -> list Row;
  bulk : OpensearchAction -> Row -> option Descriptor
}.

(** An index of the search engine: [exists_] is [index.exists()],
    [stored_ids] the [meta.id] of the hits of the id-only scan. *)
Record Index := {
  _name : string;
  exists_ : bool;
  _doc_types : list Document;
  stored_ids : list string
}.

(** The registry; a Python set or dict is listed in its iteration order. *)
Record Registry := {
  get_indices : list Index;
  get_models : list Model;
  get_indices_raw : list (Index * list Document)
}.

(** The options of the [document] sub-command. *)
Record Options := {
  action : OpensearchAction;
  indices : list string;
  objects : list string;
  force : bool;
  filters : list (string * Value);
  excludes : list (string * Value);
  verbosity : Z;
  parallel : bool;
  count : option Z;
  refresh : bool;
  missing : bool;
  database : option string;
  batch_size : option Z;
  batch_type : string
}.

(** ** What the command does to the outside world *)

(** One line of the post-run report: at verbosity 1 the errors grouped
    by reason, under the past tense of the action; above 1 the list of
    errors itself, under the enum member as the f-string formats it,
    followed by the letter d (lines 218 and 249 interpolate [action],
    not [action.past]). *)
Inductive ReportEntry :=
| Grouped (success : Z) (model verb : string) (errors : Z)
    (reasons : list (string * Z))
| Full (success : Z) (model : string) (member : OpensearchAction)
    (errors : Z) (descriptors : list Descriptor).

(** The texts the command writes, one constructor per f-string of the
    source, with the values it interpolates. *)
Inductive Message :=
| Usage
| InvalidFilter (given : string)
| UnknownObject (model : string) (choices : list string)
| UnknownIndices (unknown choices : list string)
| NotCreated (not_created : list string)
| ListHint
| FilterError (model : string) (index : option string) (e : string)
| Summary (verb : string) (lines : list (Z * string))
| Blank
| Report (entries : list ReportEntry).

Inductive Event :=
| Stderr (m : Message)
| Stdout (m : Message)
| Prompt
| ScanIds (index : string)
| GetQueryset (document : Document) (filter_ exclude : option Q)
    (count : option Z)
| GetIndexingQueryset (document : Document) (args : IndexingArgs)
| Update (document : Document) (qs : list Row) (parallel refresh : bool)
    (action : OpensearchAction) (raise_on_error : bool)
    (result : Z * list Descriptor).

(** Exceptions nothing in the command catches. *)
Inductive Exn := IndexError | EOFError.

Inductive Outcome (A : Type) :=
| Ret (a : A)
| Exit (code : Z)
| Raise (e : Exn).
Arguments Ret {A} a.
Arguments Exit {A} code.
Arguments Raise {A} e.

(** The result of running a piece of the command on the lines waiting
    on stdin: how it ended, the events it produced in order, and the
    lines it left unread. *)
Record Run (A : Type) := MkRun {
  outcome : Outcome A;
  emitted : list Event;
  unread : list string
}.
Arguments MkRun {A} outcome emitted unread.
Arguments outcome {A} r.
Arguments emitted {A} r.
Arguments unread {A} r.

Definition M (A : Type) : Type := list string -> Run A.

Global Instance M_ret : MRet M := λ A a stdin, MkRun (Ret a) [] stdin.

Global Instance M_bind : MBind M := λ A B f m stdin,
  let r := m stdin in
  match outcome r with
  | Ret a =>
      let r' := f a (unread r) in
      MkRun (outcome r') (emitted r ++ emitted r') (unread r')
  | Exit code => MkRun (Exit code) (emitted r) (unread r)
  | Raise e => MkRun (Raise e) (emitted r) (unread r)
  end.

Definition emit (e : Event) : M unit := λ stdin, MkRun (Ret tt) [e] stdin.
Definition exit {A} (code : Z) : M A := λ stdin, MkRun (Exit code) [] stdin.
Definition raise {A} (e : Exn) : M A := λ stdin, MkRun (Raise e) [] stdin.
Definition stderr_write (m : Message) : M unit := emit (Stderr m).
Definition stdout_write (m : Message) : M unit := emit (Stdout m).

(** [r], with the events [evs] before its own. *)
Definition after {A} (evs : list Event) (r : Run A) : Run A :=
  MkRun (outcome r) (evs ++ emitted r) (unread r).

(** [l[0]] *)
Definition first {A} (l : list A) : M A :=
  match l with
  | x :: _ => mret x
  | [] => raise IndexError
  end.

(** ** [Command.db_filter] *)

Section DbFilter.

(** [management/types.py]'s [parse]; [None] when it raises
    [ValueError]. *)
Variable parse : string -> option Value.

(** The function [wrap] that [db_filter] returns.  The unpacking
    [lookup, v = value.split("=")] raises [ValueError] unless the split
    has exactly two pieces. *)
Definition wrap (value : string) : M (string * Value) :=
  let malformed : M (string * Value) :=
    stderr_write Usage ;;
    stderr_write (InvalidFilter value) ;;
    exit 1 in
  match split "=" value with
  | [lookup; v] =>
      match parse v with
      | Some v => mret (lookup, v)
      | None => malformed
      end
  | _ => malformed
  end.

End DbFilter.

(** ** [Command._manage_document] *)

(** Python truthiness of a list. *)
Definition truthy {A} (l : list A) : bool :=
  match l with [] => false | _ :: _ => true end.

(** [functools.reduce(operator.and_, (Q(k=v) for k, v in pairs))
    if pairs else None] (lines 91, 92). *)
Definition conjunction (pairs : list (string * Value)) : option Q :=
  match (λ kv, QLeaf kv.1 kv.2) <$> pairs with
  | [] => None
  | q :: qs => Some (foldl QAnd q qs)
  end.

(** [m.__name__.lower() for m in registry.get_models()] (line 96). *)
Definition registered_models (reg : Registry) : list string :=
  (λ m, lower (__name__ m)) <$> get_models reg.

(** The loop of lines 98-103. *)
Fixpoint validate_objects (registered objects valid_models : list string)
  : M (list string) :=
  match objects with
  | [] => mret valid_models
  | model :: objects =>
      if py_in (lower model) registered
      then validate_objects registered objects (valid_models ++ [model])
      else stderr_write (UnknownObject model registered) ;; exit 1
  end.

(** Lines 106-117: the working set of indices. *)
Definition filter_indices (known : list Index) (indices : list string)
  : M (list Index) :=
  if truthy indices then
    let known_name := _name <$> known in
    let unknown : gset string := list_to_set indices ∖ list_to_set known_name in
    if bool_decide (unknown = ∅)
    then mret (filter (λ i, _name i ∈ indices) known)
    else stderr_write (UnknownIndices (elements unknown) known_name) ;; exit 1
  else mret known.

(** Lines 119-124. *)
Definition ensure_created (indices : list Index) : M unit :=
  let not_created := _name <$> filter (λ i, exists_ i = false) indices in
  if truthy not_created then
    stderr_write (NotCreated not_created) ;;
    stderr_write ListHint ;;
    exit 1
  else mret tt.

(** Lines 131-142. *)
Definition select_os_models (reg : Registry) (valid_models : list string)
    (indices : list Index) : list Document :=
  let django_models :=
    filter (λ m, lower (__name__ m) ∈ valid_models) (get_models reg) in
  let all_os_models := concat (snd <$> get_indices_raw reg) in
  filter (λ os_model,
            django_model os_model ∈ django_models ∧
            Index_name os_model ∈ (_name <$> indices))
         all_os_models.

(** The loop of lines 146-154. *)
Fixpoint check_objects (filter_ exclude_ : option Q) (count : option Z)
    (selected_os_models : list Document) (s : list (Z * string))
    (kwargs_list : list Kwargs) : M (list (Z * string) * list Kwargs) :=
  match selected_os_models with
  | [] => mret (s, kwargs_list)
  | model :: rest =>
      let kwargs_list :=
        kwargs_list ++ [{| kw_db_alias := None; kw_filter_ := filter_;
                           kw_exclude := exclude_; kw_count := count |}] in
      emit (GetQueryset model filter_ exclude_ count) ;;
      match get_queryset model filter_ exclude_ count with
      | inl e =>
          stderr_write (FilterError (__name__ (django_model model)) None e) ;;
          exit 1
      | inr qs =>
          check_objects filter_ exclude_ count rest
            (s ++ [(qs, __name__ (django_model model))]) kwargs_list
      end
  end.

(** Lines 158-161: the exclude of one index, with [--missing]. *)
Definition missing_exclude (o : Options) (exclude : option Q) (index : Index)
  : M (option Q) :=
  if missing o && bool_decide (action o = INDEX) then
    emit (ScanIds (_name index)) ;;
    let q := QLeaf "pk__in" (VList (VStr <$> stored_ids index)) in
    mret (Some (match exclude with
                | Some exclude_ => QAnd exclude_ q
                | None => q
                end))
  else mret exclude.

(** The loop of lines 156-172. *)
Fixpoint check_indices (o : Options) (filter_ exclude : option Q)
    (indices : list Index) (s : list (Z * string))
    (kwargs_list : list Kwargs) : M (list (Z * string) * list Kwargs) :=
  match indices with
  | [] => mret (s, kwargs_list)
  | index :: rest =>
      exclude_ ← missing_exclude o exclude index;
      document ← first (_doc_types index);
      let kwargs_list :=
        kwargs_list ++ [{| kw_db_alias := Some (database o);
                           kw_filter_ := filter_; kw_exclude := exclude_;
                           kw_count := count o |}] in
      emit (GetQueryset document filter_ exclude_ (count o)) ;;
      match get_queryset document filter_ exclude_ (count o) with
      | inl e =>
          model ← first (_doc_types index);
          stderr_write (FilterError (__name__ (django_model model))
                          (Some (_name index)) e) ;;
          exit 1
      | inr qs =>
          check_indices o filter_ exclude rest
            (s ++ [(qs, __name__ (django_model document))]) kwargs_list
      end
  end.

(** Lines 179-186: the confirmation loop, reading stdin line by line;
    [input] raises [EOFError] when stdin is exhausted. *)
Fixpoint confirm (stdin : list string) : Run unit :=
  match stdin with
  | [] => (emit Prompt ;; raise EOFError) []
  | p :: rest =>
      if py_in (lower p) ["yes"; "y"]
      then (emit Prompt ;; stdout_write Blank) rest
      else if py_in (lower p) ["no"; "n"]
      then (emit Prompt ;; exit 1) rest
      else after [Prompt] (confirm rest)
  end.

(** Modelled from the spec: [Document.update] of [documents.py] with
    [raise_on_error=False] (§4.5): the engine accepts or rejects each
    document, the result is the number of accepted documents and the
    ordered list of the failure descriptors, and nothing is raised. *)
Definition update (document : Document) (qs : list Row)
    (a : OpensearchAction) : Z * list Descriptor :=
  (Z.of_nat (length (filter (λ r, bulk document a r = None) qs)),
   omap (bulk document a) qs).

(** [reasons[error] += 1] on a [defaultdict(int)], kept in insertion
    order. *)
Fixpoint bump (error : string) (reasons : list (string * Z))
  : list (string * Z) :=
  match reasons with
  | [] => [(error, 1)]
  | (k, n) :: reasons =>
      if decide (k = error) then (k, n + 1) :: reasons
      else (k, n) :: bump error reasons
  end.

(** [e.get(action, {"result": "unknown error"}).get("result",
    "unknown error")] *)
Definition reason (a : OpensearchAction) (e : Descriptor) : string :=
  default "unknown error"
    (default ({[ "result" := "unknown error" ]} : gmap string string)
             (e !! value a) !! "result").

(** Lines 204-218 (and 235-249): the lines a target adds to [result]. *)
Definition report (o : Options) (document : Document) (success : Z)
    (errors : list Descriptor) : list ReportEntry :=
  let model := __name__ (django_model document) in
  let errors_len := Z.of_nat (length errors) in
  (if bool_decide (verbosity o = 1)
   then [Grouped success model (past (action o)) errors_len
           (foldl (λ reasons e, bump (reason (action o) e) reasons) [] errors)]
   else []) ++
  (if bool_decide (verbosity o > 1)
   then [Full success model (action o) errors_len errors]
   else []).

(** Lines 192-218 (and 223-249): one target is written to the engine. *)
Definition process (o : Options) (document : Document) (kwargs : Kwargs)
  : M (list ReportEntry) :=
  let args := {| ia_verbose := verbosity o; ia_action := action o;
                 ia_batch_size := batch_size o;
                 ia_batch_type := batch_type o; ia_kwargs := kwargs |} in
  emit (GetIndexingQueryset document args) ;;
  let qs := get_indexing_queryset document args in
  let result := update document qs (action o) in
  emit (Update document qs (parallel o) (refresh o) (action o) false result) ;;
  mret (report o document result.1 result.2).

(** The loop of lines 190-218. *)
Fixpoint execute_objects (o : Options) (targets : list (Document * Kwargs))
    (result : list ReportEntry) : M (list ReportEntry) :=
  match targets with
  | [] => mret result
  | (model, kwargs) :: targets =>
      lines ← process o model kwargs;
      execute_objects o targets (result ++ lines)
  end.

(** The loop of lines 221-249. *)
Fixpoint execute_indices (o : Options) (targets : list (Index * Kwargs))
    (result : list ReportEntry) : M (list ReportEntry) :=
  match targets with
  | [] => mret result
  | (index, kwargs) :: targets =>
      document ← first (_doc_types index);
      lines ← process o document kwargs;
      execute_indices o targets (result ++ lines)
  end.

(** Lines 126-172: the field check of every target, which also builds
    the summary [s] and [kwargs_list]. *)
Definition check_fields (reg : Registry) (o : Options)
    (valid_models : list string) (indices : list Index)
  : M (list Document * list (Z * string) * list Kwargs) :=
  let filter_ := conjunction (filters o) in
  let exclude := conjunction (excludes o) in
  if truthy (objects o) then
    let selected_os_models := select_os_models reg valid_models indices in
    '(s, kwargs_list) ←
      check_objects filter_ exclude (count o) selected_os_models [] [];
    mret (selected_os_models, s, kwargs_list)
  else
    '(s, kwargs_list) ← check_indices o filter_ exclude indices [] [];
    mret ([], s, kwargs_list).

(** Lines 89-172: everything the command checks before it asks for a
    confirmation. *)
Definition preflight (reg : Registry) (o : Options)
  : M (list Index * (list Document * list (Z * string) * list Kwargs)) :=
  let known := get_indices reg in
  valid_models ←
    (if truthy (objects o)
     then validate_objects (registered_models reg) (objects o) []
     else mret []);
  indices ← filter_indices known (indices o);
  ensure_created indices ;;
  checked ← check_fields reg o valid_models indices;
  mret (indices, checked).

(** Lines 174-186: the summary, then the confirmation unless [--force]. *)
Definition announce (o : Options) (s : list (Z * string)) : M unit :=
  if bool_decide (verbosity o ≠ 0) || negb (force o)
  then stdout_write (Summary (past (action o)) s)
  else mret tt.

Definition gate (o : Options) : M unit :=
  if negb (force o) then confirm else mret tt.

(** Lines 188-252: the writes and the report. *)
Definition execute (o : Options) (indices : list Index)
    (selected_os_models : list Document) (kwargs_list : list Kwargs)
  : M unit :=
  result ←
    (if truthy (objects o)
     then execute_objects o (zip selected_os_models kwargs_list) []
     else execute_indices o (zip indices kwargs_list) []);
  if bool_decide (verbosity o ≠ 0)
  then stdout_write (Report result)
  else mret tt.

Definition _manage_document (reg : Registry) (o : Options) : M unit :=
  '(indices, (selected_os_models, s, kwargs_list)) ← preflight reg o;
  announce o s ;;
  gate o ;;
  execute o indices selected_os_models kwargs_list.

(** ** The targets of a run *)

(** [i._name for i in known] (line 108). *)
Definition known_name (reg : Registry) : list string :=
  _name <$> get_indices reg.

(** The working set of indices once the names are validated: the
    registered indices named by [--indices], every registered index
    when none is named. *)
Definition resolved_indices (reg : Registry) (o : Options) : list Index :=
  if truthy (indices o)
  then filter (λ i, _name i ∈ indices o) (get_indices reg)
  else get_indices reg.

(** The value of [exclude_] for one index (lines 158-161). *)
Definition exclude_of (o : Options) (exclude : option Q) (index : Index)
  : option Q :=
  if missing o && bool_decide (action o = INDEX) then
    let q := QLeaf "pk__in" (VList (VStr <$> stored_ids index)) in
    Some (match exclude with
          | Some exclude_ => QAnd exclude_ q
          | None => q
          end)
  else exclude.

(** A target: the document mapping that is checked and then written, the
    index it was reached through (in the index branch), and its entry of
    [kwargs_list]. *)
Record Target := {
  target_document : Document;
  target_index : option Index;
  target_kwargs : Kwargs
}.

Definition object_target (o : Options) (model : Document) : Target :=
  {| target_document := model;
     target_index := None;
     target_kwargs :=
       {| kw_db_alias := None;
          kw_filter_ := conjunction (filters o);
          kw_exclude := conjunction (excludes o);
          kw_count := count o |} |}.

Definition index_target (o : Options) (index : Index) : option Target :=
  document ← head (_doc_types index);
  Some {| target_document := document;
          target_index := Some index;
          target_kwargs :=
            {| kw_db_alias := Some (database o);
               kw_filter_ := conjunction (filters o);
               kw_exclude := exclude_of o (conjunction (excludes o)) index;
               kw_count := count o |} |}.

Definition targets_of (reg : Registry) (o : Options)
    (valid_models : list string) (indices : list Index) : list Target :=
  if truthy (objects o)
  then object_target o <$> select_os_models reg valid_models indices
  else omap (index_target o) indices.

Definition targets (reg : Registry) (o : Options) : list Target :=
  targets_of reg o (objects o) (resolved_indices reg o).

Definition model_name (t : Target) : string :=
  __name__ (django_model (target_document t)).

(** What the store answers when the queryset of a target is built. *)
Definition queryset_of (t : Target) : string + Z :=
  let kwargs := target_kwargs t in
  get_queryset (target_document t)
    (kw_filter_ kwargs) (kw_exclude kwargs) (kw_count kwargs).

Definition rejected (t : Target) : Prop := ∃ e, queryset_of t = inl e.

Global Instance rejected_dec t : Decision (rejected t).
Proof.
  unfold rejected. destruct (queryset_of t) as [e|n].
  - left. by exists e.
  - right. by intros [e ?].
Defined.

(** The events of the field check of one target. *)
Definition check_events (o : Options) (t : Target) : list Event :=
  let kwargs := target_kwargs t in
  match target_index t with
  | Some index =>
      if missing o && bool_decide (action o = INDEX)
      then [ScanIds (_name index)] else []
  | None => []
  end ++
  [GetQueryset (target_document t)
     (kw_filter_ kwargs) (kw_exclude kwargs) (kw_count kwargs)].

Definition summary_line (t : Target) : Z * string :=
  (match queryset_of t with inr qs => qs | inl _ => 0 end, model_name t).

Definition filter_error (t : Target) (e : string) : Message :=
  FilterError (model_name t) (_name <$> target_index t) e.

(** The events of the execution of one target, and its report lines. *)
Definition indexing_args (o : Options) (t : Target) : IndexingArgs :=
  {| ia_verbose := verbosity o; ia_action := action o;
     ia_batch_size := batch_size o; ia_batch_type := batch_type o;
     ia_kwargs := target_kwargs t |}.

Definition indexing_queryset (o : Options) (t : Target) : list Row :=
  get_indexing_queryset (target_document t) (indexing_args o t).

Definition write_of (o : Options) (t : Target) : Event :=
  Update (target_document t) (indexing_queryset o t) (parallel o)
    (refresh o) (action o) false
    (update (target_document t) (indexing_queryset o t) (action o)).

Definition process_events (o : Options) (t : Target) : list Event :=
  [GetIndexingQueryset (target_document t) (indexing_args o t);
   write_of o t].

Definition report_of (o : Options) (t : Target) : list ReportEntry :=
  let result :=
    update (target_document t) (indexing_queryset o t) (action o) in
  report o (target_document t) result.1 result.2.

(** The documents selected by object names, none in the index branch. *)
Definition selected_of (reg : Registry) (o : Options)
    (valid_models : list string) (indices : list Index) : list Document :=
  if truthy (objects o) then select_os_models reg valid_models indices
  else [].

(** The trace of the field check of a list of targets, and whether every
    queryset could be built: the check stops at the first target the
    store rejects. *)
Fixpoint check_trace (o : Options) (ts : list Target) : list Event * bool :=
  match ts with
  | [] => ([], true)
  | t :: ts =>
      match queryset_of t with
      | inl e => (check_events o t ++ [Stderr (filter_error t e)], false)
      | inr _ =>
          let rest := check_trace o ts in
          (check_events o t ++ rest.1, rest.2)
      end
  end.

(** The summary written before the confirmation. *)
Definition announcement (o : Options) (ts : list Target) : list Event :=
  if bool_decide (verbosity o ≠ 0) || negb (force o)
  then [Stdout (Summary (past (action o)) (summary_line <$> ts))] else [].

(** The report written at the end, when the verbosity asks for one. *)
Definition report_events (o : Options) (ts : list Target) : list Event :=
  if bool_decide (verbosity o ≠ 0)
  then [Stdout (Report (ts ≫= report_of o))] else [].

(** ** Reading a trace *)

Definition is_write (e : Event) : bool :=
  match e with Update _ _ _ _ _ _ _ => true | _ => false end.

Definition is_queryset (e : Event) : bool :=
  match e with GetQueryset _ _ _ _ => true | _ => false end.

Definition is_prompt (e : Event) : bool :=
  match e with Prompt => true | _ => false end.

(** The writes to the engine. *)
Definition writes (trace : list Event) : list Event :=
  filter (λ e, is_write e) trace.

(** The querysets built. *)
Definition querysets (trace : list Event) : list Event :=
  filter (λ e, is_queryset e) trace.

(** The messages written to stderr. *)
Definition stderr_of (trace : list Event) : list Message :=
  omap (λ e, match e with Stderr m => Some m | _ => None end) trace.

(** The number of times the confirmation was asked for. *)
Definition prompts (trace : list Event) : nat :=
  length (filter (λ e, is_prompt e) trace).

(** How the confirmation loop reads one line. *)
Definition answer (p : string) : option bool :=
  if py_in (lower p) ["yes"; "y"] then Some true
  else if py_in (lower p) ["no"; "n"] then Some false
  else None.

(** ** The stage an event belongs to *)

Inductive Stage :=
| Parsing | Naming | Existence | Fields | Announcement | Confirmation
| Execution.

Global Instance Stage_eq_dec : EqDecision Stage.
Proof. solve_decision. Defined.

Definition message_stage (m : Message) : Stage :=
  match m with
  | Usage | InvalidFilter _ => Parsing
  | UnknownObject _ _ | UnknownIndices _ _ => Naming
  | NotCreated _ | ListHint => Existence
  | FilterError _ _ _ => Fields
  | Summary _ _ => Announcement
  | Blank => Confirmation
  | Report _ => Execution
  end.

Definition stage (e : Event) : Stage :=
  match e with
  | Stderr m | Stdout m => message_stage m
  | Prompt => Confirmation
  | ScanIds _ | GetQueryset _ _ _ _ => Fields
  | GetIndexingQueryset _ _ | Update _ _ _ _ _ _ _ => Execution
  end.

(** Every event [m] produces satisfies [P], whatever stdin holds. *)
Definition emits {A} (P : Event → Prop) (m : M A) : Prop :=
  ∀ stdin, Forall P (emitted (m stdin)).

(** The stages of the pre-flight. *)
Definition before_announcement (s : Stage) : Prop :=
  s = Naming ∨ s = Existence ∨ s = Fields.

(** ** The conditions of a pre-flight failure *)

Definition registry_wf (reg : Registry) : Prop :=
  Forall (λ i, _doc_types i ≠ []) (get_indices reg).

Definition unknown_object (reg : Registry) (o : Options) : Prop :=
  Exists (λ model, lower model ∉ registered_models reg) (objects o).

Definition unknown_index (reg : Registry) (o : Options) : Prop :=
  Exists (λ name, name ∉ known_name reg) (indices o).

Definition not_created (reg : Registry) (o : Options) : Prop :=
  Exists (λ i, exists_ i = false) (resolved_indices reg o).

Definition lookup_rejected (reg : Registry) (o : Options) : Prop :=
  Exists rejected (targets reg o).

Definition preflight_fails (reg : Registry) (o : Options) : Prop :=
  unknown_object reg o ∨ unknown_index reg o ∨ not_created reg o ∨
  lookup_rejected reg o.

Global Instance preflight_fails_dec reg o : Decision (preflight_fails reg o).
Proof.
  unfold preflight_fails, unknown_object, unknown_index, not_created,
    lookup_rejected.
  apply _.
Defined.

(** The confirmation is passed: it is not asked for, or the first line
    of stdin that answers it says yes. *)
Definition confirmed (o : Options) (stdin : list string) : Prop :=
  force o = true ∨
  ∃ junk p rest,
    stdin = junk ++ p :: rest ∧
    Forall (λ q, lower q ∉ ["yes"; "y"; "no"; "n"]) junk ∧
    lower p ∈ ["yes"; "y"].

(** The options [o], with another value for [--database]. *)
Definition with_database (db : option string) (o : Options) : Options :=
  {| action := action o; indices := indices o; objects := objects o;
     force := force o; filters := filters o; excludes := excludes o;
     verbosity := verbosity o; parallel := parallel o; count := count o;
     refresh := refresh o; missing := missing o; database := db;
     batch_size := batch_size o; batch_type := batch_type o |}.

(** ** What a predicate selects *)

Section Selection.

(** The store's judgement of one lookup on one row. *)
Variable holds : string -> Value -> Row -> bool.

(** [q1 & q2] selects the rows both select. *)
Fixpoint selects (q : Q) (r : Row) : bool :=
  match q with
  | QLeaf k v => holds k v r
  | QAnd q1 q2 => selects q1 r && selects q2 r
  end.

(** [None] is no predicate at all: every row passes. *)
Definition passes (q : option Q) (r : Row) : bool :=
  from_option (λ q, selects q r) true q.

End Selection.

(** ** [Command.__list_index] *)

(** One line of the listing, [f"{checkbox} {index._name}{count}"]: the
    box is ticked when the index exists, and the number of documents is
    there only then. *)
Record ListLine := {
  ticked : bool;
  listed : string;
  documents : option Z
}.

(** What the listing does: the calls to [index.search().count()], and
    the two writes of each application. *)
Inductive ListEvent :=
| CountDocuments (index : string)
| WriteLabel (app : string)
| WriteLines (lines : list ListLine).

(** [l[-2]], [None] when it raises [IndexError]. *)
Definition penultimate {A} (l : list A) : option A :=
  match reverse l with
  | _ :: x :: _ => Some x
  | _ => None
  end.

(** [result[module].append(line)] on a [defaultdict(list)], kept in
    insertion order. *)
Fixpoint append_line (module : string) (line : ListLine)
    (result : list (string * list ListLine)) : list (string * list ListLine) :=
  match result with
  | [] => [(module, [line])]
  | (app, lines) :: result =>
      if decide (app = module) then (app, lines ++ [line]) :: result
      else (app, lines) :: append_line module line result
  end.

Section ListIndex.

(** The [__module__] of a document class. *)
Variable module_of : Document -> string.

(** [index.search().count()] *)
Variable count_of : Index -> Z.

(** [index._doc_types[0].__module__.split(".")[-2]] (line 55). *)
Definition app_of (index : Index) : option string :=
  document ← head (_doc_types index);
  penultimate (split "." (module_of document)).

(** The line of an index (lines 56-59). *)
Definition line_of (index : Index) : ListLine :=
  {| ticked := exists_ index;
     listed := _name index;
     documents := if exists_ index then Some (count_of index) else None |}.

(** The loop of lines 54-59: the counts it asks for, and [result], or
    the exception that ends it. *)
Fixpoint collect (indices : list Index)
    (result : list (string * list ListLine))
  : list ListEvent * (Exn + list (string * list ListLine)) :=
  match indices with
  | [] => ([], inr result)
  | index :: indices =>
      match app_of index with
      | None => ([], inl IndexError)
      | Some module =>
          let counted :=
            if exists_ index then [CountDocuments (_name index)] else [] in
          let rest :=
            collect indices (append_line module (line_of index) result) in
          (counted ++ rest.1, rest.2)
      end
  end.

(** The command: its events, and the exception it ends with, if any. *)
Definition __list_index (reg : Registry) : list ListEvent * option Exn :=
  let rows := collect (get_indices reg) [] in
  match rows.2 with
  | inl e => (rows.1, Some e)
  | inr result =>
      (rows.1 ++ (result ≫= λ group, [WriteLabel group.1; WriteLines group.2]),
       None)
  end.

End ListIndex.

(** The lines a grouped listing holds for an application, none when the
    application is not listed. *)
Fixpoint lines_under (app : string) (result : list (string * list ListLine))
  : list ListLine :=
  match result with
  | [] => []
  | (k, lines) :: result =>
      if decide (k = app) then lines else lines_under app result
  end.

(** The writes of the listing. *)
Definition is_list_write (e : ListEvent) : bool :=
  match e with CountDocuments _ => false | _ => true end.

(** ** Options that differ in one flag *)

Definition with_missing (flag : bool) (o : Options) : Options :=
  {| action := action o; indices := indices o; objects := objects o;
     force := force o; filters := filters o; excludes := excludes o;
     verbosity := verbosity o; parallel := parallel o; count := count o;
     refresh := refresh o; missing := flag; database := database o;
     batch_size := batch_size o; batch_type := batch_type o |}.

Definition with_indices (names : list string) (o : Options) : Options :=
  {| action := action o; indices := names; objects := objects o;
     force := force o; filters := filters o; excludes := excludes o;
     verbosity := verbosity o; parallel := parallel o; count := count o;
     refresh := refresh o; missing := missing o; database := database o;
     batch_size := batch_size o; batch_type := batch_type o |}.

Definition with_verbosity (level : Z) (o : Options) : Options :=
  {| action := action o; indices := indices o; objects := objects o;
     force := force o; filters := filters o; excludes := excludes o;
     verbosity := level; parallel := parallel o; count := count o;
     refresh := refresh o; missing := missing o; database := database o;
     batch_size := batch_size o; batch_type := batch_type o |}.

(** ** More readings of a trace *)

Definition is_stdout (e : Event) : bool :=
  match e with Stdout _ => true | _ => false end.

Definition is_indexing (e : Event) : bool :=
  match e with GetIndexingQueryset _ _ => true | _ => false end.

(** The calls to [get_indexing_queryset]. *)
Definition indexings (trace : list Event) : list Event :=
  filter (λ e, is_indexing e) trace.

(** [m] never exits with a code other than 1. *)
Definition exits_one {A} (m : M A) : Prop :=
  ∀ stdin code, outcome (m stdin) = Exit code → code = 1.

(** The total a grouped report gives for a reason, 0 when the reason is
    not listed. *)
Fixpoint tally (r : string) (reasons : list (string * Z)) : Z :=
  match reasons with
  | [] => 0
  | (k, n) :: reasons => (if decide (k = r) then n else 0) + tally r reasons
  end.

(** The number of errors of a list that are reported under a reason. *)
Definition reported_as (a : OpensearchAction) (r : string)
    (errors : list Descriptor) : Z :=
  Z.of_nat (length (filter (λ e, reason a e = r) errors)).

(** ** A small registry to run the command on *)

Module Sample.

Definition Article : Model := {| model_key := 0; __name__ := "Article" |}.
Definition Book : Model := {| model_key := 1; __name__ := "Book" |}.

(** Whether the store resolves every lookup of a predicate, for a
    model with the given fields. *)
Fixpoint resolves (fields : list string) (q : Q) : bool :=
  match q with
  | QLeaf k _ => py_in k fields
  | QAnd q1 q2 => resolves fields q1 && resolves fields q2
  end.

Definition store_count (fields : list string) (n : Z)
    (filter_ exclude : option Q) (count : option Z) : string + Z :=
  if from_option (resolves fields) true filter_ &&
     from_option (resolves fields) true exclude
  then inr n
  else inl "Cannot resolve keyword into field.".

Definition row (pk : Z) : Row := [("pk", VInt pk)].

(** The engine rejects the document of primary key 2. *)
Definition verdict (a : OpensearchAction) (r : Row) : option Descriptor :=
  match r with
  | [(_, VInt 2)] =>
      Some {[ value a := ({[ "result" := "mapper_parsing_exception" ]}
                          : gmap string string) ]}
  | _ => None
  end.

Definition ArticleDocument : Document :=
  {| django_model := Article; Index_name := "articles";
     get_queryset := store_count ["pk__in"; "title"; "status"] 3;
     get_indexing_queryset := λ _, [row 1; row 2; row 3];
     bulk := verdict |}.

Definition BookDocument : Document :=
  {| django_model := Book; Index_name := "books";
     get_queryset := store_count ["pk__in"; "title"] 2;
     get_indexing_queryset := λ _, [row 1; row 2];
     bulk := verdict |}.

Definition articles (created : bool) : Index :=
  {| _name := "articles"; exists_ := created;
     _doc_types := [ArticleDocument]; stored_ids := ["1"] |}.

Definition books (created : bool) : Index :=
  {| _name := "books"; exists_ := created;
     _doc_types := [BookDocument]; stored_ids := [] |}.

Definition registry (articles_created books_created : bool) : Registry :=
  {| get_indices := [articles articles_created; books books_created];
     get_models := [Article; Book];
     get_indices_raw :=
       [(articles articles_created, [ArticleDocument]);
        (books books_created, [BookDocument])] |}.

(** The options of a run: the action, the selection, the flags that
    gate it, and the filters; the rest as argparse defaults them. *)
Definition options (a : OpensearchAction) (indices objects : list string)
    (force missing : bool) (filters excludes : list (string * Value))
    (database : option string) : Options :=
  {| action := a; indices := indices; objects := objects; force := force;
     filters := filters; excludes := excludes; verbosity := 1;
     parallel := false; count := None; refresh := false;
     missing := missing; database := database; batch_size := None;
     batch_type := "offset" |}.

(** The two targets of a run over every index. *)
Definition by_index (o : Options) (index : Index) (document : Document)
  : Target :=
  {| target_document := document;
     target_index := Some index;
     target_kwargs :=
       {| kw_db_alias := Some (database o);
          kw_filter_ := conjunction (filters o);
          kw_exclude := exclude_of o (conjunction (excludes o)) index;
          kw_count := count o |} |}.

(** Whether a row has a field of the name of the lookup. *)
Definition has_field (k : string) (v : Value) (r : Row) : bool :=
  py_in k (r.*1).

(** The modules of the document classes: the articles live in the
    application [blog], the books in [library]. *)
Definition module_of (document : Document) : string :=
  if decide (Index_name document = "articles") then "blog.documents"
  else "library.documents".

(** The same, with the document class of the books declared in a module
    without a package. *)
Definition flat_module_of (document : Document) : string :=
  if decide (Index_name document = "articles") then "blog.documents"
  else "documents".

Definition count_of (index : Index) : Z :=
  Z.of_nat (length (stored_ids index)).

End Sample.

(** * Properties *)

(** ** Splitting on a character *)

Lemma split_length sep s : length (split sep s) = S (occurrences sep s).
Proof.
  induction s as [|c r IH]; simpl; [done|].
  destruct (Ascii.eqb c sep); simpl; [by rewrite IH|].
  destruct (split sep r); simpl in *; [discriminate IH|done].
Qed.

Lemma split_without sep s : occurrences sep s = 0%nat → split sep s = [s].
Proof.
  induction s as [|c r IH]; simpl; [done|].
  destruct (Ascii.eqb c sep); [discriminate|].
  intros Hr. by rewrite (IH Hr).
Qed.

Lemma split_once sep s :
  occurrences sep s = 1%nat →
  ∃ before behind,
    s = before +:+ String sep behind ∧ split sep s = [before; behind].
Proof.
  induction s as [|c r IH]; simpl; [done|].
  destruct (Ascii.eqb_spec c sep) as [->|Hne]; intros Hocc.
  - exists "", r. split; [done|].
    rewrite split_without; [done|]. by injection Hocc.
  - destruct (IH Hocc) as (before & behind & -> & ->).
    by exists (String c before), behind.
Qed.

(** ** Running a sequence *)

Lemma bind_Ret {A B} (m : M A) (f : A → M B) stdin a evs rest :
  m stdin = MkRun (Ret a) evs rest →
  (m ≫= f) stdin = after evs (f a rest).
Proof. intros Hm. unfold mbind, M_bind, after. by rewrite Hm. Qed.

Lemma bind_Exit {A B} (m : M A) (f : A → M B) stdin code evs rest :
  m stdin = MkRun (Exit code) evs rest →
  (m ≫= f) stdin = MkRun (Exit code) evs rest.
Proof. intros Hm. unfold mbind, M_bind. by rewrite Hm. Qed.

Lemma bind_Raise {A B} (m : M A) (f : A → M B) stdin e evs rest :
  m stdin = MkRun (Raise e) evs rest →
  (m ≫= f) stdin = MkRun (Raise e) evs rest.
Proof. intros Hm. unfold mbind, M_bind. by rewrite Hm. Qed.

Lemma after_nil {A} (r : Run A) : after [] r = r.
Proof. by destruct r. Qed.

Lemma after_after {A} evs evs' (r : Run A) :
  after evs (after evs' r) = after (evs ++ evs') r.
Proof. unfold after. simpl. by rewrite app_assoc. Qed.

Lemma after_MkRun {A} evs (oc : Outcome A) evs' rest :
  after evs (MkRun oc evs' rest) = MkRun oc (evs ++ evs') rest.
Proof. done. Qed.

(** ** The name checks (lines 95-124) *)

Lemma truthy_Exists {A} (P : A → Prop) l : Exists P l → truthy l = true.
Proof. by destruct 1. Qed.

Lemma validate_objects_known registered objects valid_models stdin :
  Forall (λ model, lower model ∈ registered) objects →
  validate_objects registered objects valid_models stdin =
  MkRun (Ret (valid_models ++ objects)) [] stdin.
Proof.
  revert valid_models.
  induction objects as [|model objects IH]; intros valid_models Hall; simpl.
  - by rewrite app_nil_r.
  - apply Forall_cons in Hall as [Hmodel Hall].
    unfold py_in. rewrite bool_decide_eq_true_2 by done.
    rewrite IH by done. by rewrite <- app_assoc.
Qed.

Lemma validate_objects_unknown registered objects valid_models stdin :
  Exists (λ model, lower model ∉ registered) objects →
  ∃ model,
    model ∈ objects ∧ (lower model ∉ registered) ∧
    validate_objects registered objects valid_models stdin =
    MkRun (Exit 1) [Stderr (UnknownObject model registered)] stdin.
Proof.
  revert valid_models.
  induction objects as [|model objects IH]; intros valid_models Hex;
    [by apply Exists_nil in Hex|].
  simpl. unfold py_in.
  destruct (decide (lower model ∈ registered)) as [Hin|Hout].
  - rewrite bool_decide_eq_true_2 by done.
    apply Exists_cons in Hex as [Hhere|Hlater]; [done|].
    destruct (IH (valid_models ++ [model]) Hlater) as (m & ? & ? & ->).
    exists m. split_and!; [by right|done..].
  - rewrite bool_decide_eq_false_2 by done.
    exists model. split_and!; [by left|done..].
Qed.

Lemma unknown_names_empty (names known : list string) :
  (list_to_set names ∖ list_to_set known : gset string) = ∅ ↔
  Forall (λ name, name ∈ known) names.
Proof.
  rewrite Forall_forall. split.
  - intros Hempty name Hname.
    destruct (decide (name ∈ known)) as [|Hout]; [done|].
    assert (name ∈ (list_to_set names ∖ list_to_set known : gset string))
      as Hin by set_solver.
    rewrite Hempty in Hin. set_solver.
  - intros Hall. apply set_eq. intros name. split; [|set_solver].
    rewrite elem_of_difference, !elem_of_list_to_set.
    intros [Hname Hout]. by destruct Hout; apply Hall.
Qed.

Lemma filter_indices_known known names stdin :
  Forall (λ name, name ∈ _name <$> known) names →
  filter_indices known names stdin =
  MkRun (Ret (if truthy names
              then filter (λ i, _name i ∈ names) known else known))
    [] stdin.
Proof.
  intros Hall. unfold filter_indices.
  destruct (truthy names); [|done].
  rewrite bool_decide_eq_true_2; [done|]. by apply unknown_names_empty.
Qed.

Lemma filter_indices_unknown known names stdin :
  Exists (λ name, name ∉ _name <$> known) names →
  filter_indices known names stdin =
  MkRun (Exit 1)
    [Stderr (UnknownIndices
               (elements (list_to_set names ∖ list_to_set (_name <$> known)
                          : gset string))
               (_name <$> known))]
    stdin.
Proof.
  intros Hex. unfold filter_indices.
  rewrite (truthy_Exists _ _ Hex).
  rewrite bool_decide_eq_false_2; [done|].
  rewrite unknown_names_empty. by apply Exists_not_Forall.
Qed.

Lemma ensure_created_ok indices stdin :
  Forall (λ i, exists_ i = true) indices →
  ensure_created indices stdin = MkRun (Ret tt) [] stdin.
Proof.
  intros Hall. unfold ensure_created.
  replace (filter (λ i, exists_ i = false) indices) with (@nil Index); [done|].
  induction Hall as [|i l Hi _ IH]; [done|].
  rewrite filter_cons_False; [done|]. by rewrite Hi.
Qed.

Lemma ensure_created_missing indices stdin :
  Exists (λ i, exists_ i = false) indices →
  ensure_created indices stdin =
  MkRun (Exit 1)
    [Stderr (NotCreated (_name <$> filter (λ i, exists_ i = false) indices));
     Stderr ListHint]
    stdin.
Proof.
  intros Hex. unfold ensure_created.
  destruct (filter (λ i, exists_ i = false) indices) as [|i l] eqn:Hfilter;
    [|done].
  apply Exists_exists in Hex as (i & Hi & Hexists).
  assert (i ∈ filter (λ i, exists_ i = false) indices) as Hin
    by by apply list_elem_of_filter.
  rewrite Hfilter in Hin. by apply not_elem_of_nil in Hin.
Qed.

(** ** The field check (lines 126-172) *)

Lemma check_trace_accepted o ts :
  Forall (λ t, ¬ rejected t) ts →
  check_trace o ts = (ts ≫= check_events o, true).
Proof.
  induction 1 as [|t ts Ht _ IH]; [done|].
  simpl. destruct (queryset_of t) as [e|n] eqn:Hq.
  - destruct Ht. by exists e.
  - by rewrite IH.
Qed.

Lemma check_trace_rejected o before t behind e :
  Forall (λ t, ¬ rejected t) before →
  queryset_of t = inl e →
  check_trace o (before ++ t :: behind) =
  ((before ≫= check_events o) ++ check_events o t ++
     [Stderr (filter_error t e)], false).
Proof.
  intros Hbefore Ht.
  induction Hbefore as [|t' ts Ht' _ IH]; simpl.
  - by rewrite Ht.
  - destruct (queryset_of t') as [e'|n] eqn:Hq.
    + destruct Ht'. by exists e'.
    + rewrite IH. simpl. by rewrite <- app_assoc.
Qed.

(** The targets before the first one the store rejects. *)
Lemma first_rejected ts :
  Exists rejected ts →
  ∃ before t behind e,
    ts = before ++ t :: behind ∧
    Forall (λ t, ¬ rejected t) before ∧ queryset_of t = inl e.
Proof.
  induction ts as [|t ts IH]; intros Hex; [by apply Exists_nil in Hex|].
  destruct (decide (rejected t)) as [[e He]|Hok].
  - by exists [], t, ts, e.
  - apply Exists_cons in Hex as [?|Hex]; [done|].
    destruct (IH Hex) as (before & t' & behind & e & -> & ? & ?).
    exists (t :: before), t', behind, e. split_and!; [done| |done].
    by constructor.
Qed.

Lemma ret_then {A B} (x : A) (f : A → M B) stdin :
  (mret x ≫= f) stdin = f x stdin.
Proof.
  erewrite bind_Ret by reflexivity. apply after_nil.
Qed.

Lemma first_cons {A B} (x : A) l (f : A → M B) stdin :
  (first (x :: l) ≫= f) stdin = f x stdin.
Proof. apply ret_then. Qed.

Lemma emit_then {A} e (m : M A) stdin :
  (emit e ;; m) stdin = after [e] (m stdin).
Proof. done. Qed.

(** Runs the steps at the head of the sequence of the goal that do not
    depend on the collaborators. *)
Ltac run :=
  repeat match goal with
         | |- @eq (Run ?B) _ _ =>
             first [ rewrite (ret_then (B:=B))
                   | rewrite (first_cons (B:=B))
                   | rewrite (emit_then (A:=B)) ]
         end.

Lemma check_objects_run o selected s kwargs_list stdin :
  let ts := object_target o <$> selected in
  check_objects (conjunction (filters o)) (conjunction (excludes o))
    (count o) selected s kwargs_list stdin =
  MkRun
    (if (check_trace o ts).2
     then Ret (s ++ (summary_line <$> ts),
               kwargs_list ++ (target_kwargs <$> ts))
     else Exit 1)
    (check_trace o ts).1 stdin.
Proof.
  revert s kwargs_list.
  induction selected as [|model selected IH]; intros s kwargs_list; simpl.
  - by rewrite !app_nil_r.
  - run. unfold queryset_of at 1 2. simpl.
    destruct (get_queryset model _ _ _) as [e|qs] eqn:Hq; [done|].
    rewrite IH. simpl. unfold summary_line at 2, queryset_of. simpl.
    rewrite Hq. unfold after. simpl.
    by rewrite <- !app_assoc.
Qed.

Lemma missing_exclude_run o exclude index stdin :
  missing_exclude o exclude index stdin =
  MkRun (Ret (exclude_of o exclude index))
    (if missing o && bool_decide (action o = INDEX)
     then [ScanIds (_name index)] else [])
    stdin.
Proof.
  unfold missing_exclude, exclude_of.
  by destruct (missing o && bool_decide (action o = INDEX)).
Qed.

Lemma check_indices_run o idx s kwargs_list stdin :
  Forall (λ i, _doc_types i ≠ []) idx →
  let ts := omap (index_target o) idx in
  check_indices o (conjunction (filters o)) (conjunction (excludes o))
    idx s kwargs_list stdin =
  MkRun
    (if (check_trace o ts).2
     then Ret (s ++ (summary_line <$> ts),
               kwargs_list ++ (target_kwargs <$> ts))
     else Exit 1)
    (check_trace o ts).1 stdin.
Proof.
  intros Hwf. revert s kwargs_list.
  induction Hwf as [|index idx Hdoc _ IH]; intros s kwargs_list; simpl.
  - by rewrite !app_nil_r.
  - destruct (_doc_types index) as [|document others] eqn:Htypes; [done|].
    erewrite bind_Ret by apply missing_exclude_run.
    destruct (index_target o index) as [t|] eqn:Ht;
      unfold index_target in Ht; rewrite Htypes in Ht; [|done].
    injection Ht as <-. simpl. run.
    unfold queryset_of, summary_line, check_events, filter_error,
      model_name. simpl.
    destruct (get_queryset document _ _ _) as [e|qs] eqn:Hq.
    + run. unfold after. simpl. by rewrite <- !app_assoc.
    + rewrite IH. unfold after. simpl.
      unfold queryset_of at 1. simpl. rewrite Hq, <- !app_assoc.
      reflexivity.
Qed.

Lemma check_fields_run reg o valid_models idx stdin :
  Forall (λ i, _doc_types i ≠ []) idx →
  let ts := targets_of reg o valid_models idx in
  check_fields reg o valid_models idx stdin =
  MkRun
    (if (check_trace o ts).2
     then Ret (selected_of reg o valid_models idx,
               summary_line <$> ts, target_kwargs <$> ts)
     else Exit 1)
    (check_trace o ts).1 stdin.
Proof.
  intros Hwf. unfold check_fields, targets_of, selected_of.
  destruct (truthy (objects o)); simpl.
  - pose proof (check_objects_run o
      (select_os_models reg valid_models idx) [] [] stdin) as Hrun.
    simpl in Hrun.
    destruct (check_trace o _).2.
    + erewrite bind_Ret by exact Hrun. simpl. run.
      unfold after. simpl. by rewrite app_nil_r.
    + by erewrite bind_Exit by exact Hrun.
  - pose proof (check_indices_run o idx [] [] stdin Hwf) as Hrun.
    simpl in Hrun.
    destruct (check_trace o _).2.
    + erewrite bind_Ret by exact Hrun. simpl. run.
      unfold after. simpl. by rewrite app_nil_r.
    + by erewrite bind_Exit by exact Hrun.
Qed.

(** ** The execution (lines 188-252) *)

Lemma process_run o t stdin :
  process o (target_document t) (target_kwargs t) stdin =
  MkRun (Ret (report_of o t)) (process_events o t) stdin.
Proof. done. Qed.

Lemma execute_objects_run o selected result stdin :
  let ts := object_target o <$> selected in
  execute_objects o (zip selected (target_kwargs <$> ts)) result stdin =
  MkRun (Ret (result ++ (ts ≫= report_of o))) (ts ≫= process_events o) stdin.
Proof.
  revert result.
  induction selected as [|model selected IH]; intros result; simpl.
  - by rewrite app_nil_r.
  - erewrite bind_Ret by apply (process_run o (object_target o model)).
    rewrite IH. unfold after. simpl. by rewrite <- app_assoc.
Qed.

Lemma execute_indices_run o idx result stdin :
  Forall (λ i, _doc_types i ≠ []) idx →
  let ts := omap (index_target o) idx in
  execute_indices o (zip idx (target_kwargs <$> ts)) result stdin =
  MkRun (Ret (result ++ (ts ≫= report_of o))) (ts ≫= process_events o) stdin.
Proof.
  intros Hwf. revert result.
  induction Hwf as [|index idx Hdoc _ IH]; intros result; simpl.
  - by rewrite app_nil_r.
  - destruct (_doc_types index) as [|document others] eqn:Htypes; [done|].
    destruct (index_target o index) as [t|] eqn:Ht;
      unfold index_target in Ht; rewrite Htypes in Ht; [|done].
    injection Ht as <-. simpl. rewrite Htypes. run.
    match goal with
    | |- context [process o document ?kwargs] =>
        erewrite bind_Ret by apply
          (process_run o {| target_document := document;
                            target_index := Some index;
                            target_kwargs := kwargs |})
    end.
    rewrite IH. unfold after. simpl. by rewrite <- app_assoc.
Qed.

Lemma execute_run reg o valid_models idx stdin :
  Forall (λ i, _doc_types i ≠ []) idx →
  let ts := targets_of reg o valid_models idx in
  execute o idx (selected_of reg o valid_models idx)
    (target_kwargs <$> ts) stdin =
  MkRun (Ret tt) ((ts ≫= process_events o) ++ report_events o ts) stdin.
Proof.
  intros Hwf. unfold execute, targets_of, selected_of, report_events.
  destruct (truthy (objects o)); simpl.
  - erewrite bind_Ret by apply execute_objects_run. simpl.
    destruct (bool_decide (verbosity o ≠ 0)); [done|].
    unfold after. simpl. by rewrite app_nil_r.
  - erewrite bind_Ret by by apply execute_indices_run. simpl.
    destruct (bool_decide (verbosity o ≠ 0)); [done|].
    unfold after. simpl. by rewrite app_nil_r.
Qed.

(** ** The confirmation (lines 178-186) *)

Lemma confirm_other p rest :
  answer p = None → confirm (p :: rest) = after [Prompt] (confirm rest).
Proof.
  unfold answer. simpl.
  by destruct (py_in (lower p) ["yes"; "y"]), (py_in (lower p) ["no"; "n"]).
Qed.

Lemma confirm_yes junk p rest :
  Forall (λ q, answer q = None) junk →
  answer p = Some true →
  confirm (junk ++ p :: rest) =
  MkRun (Ret tt) (replicate (S (length junk)) Prompt ++ [Stdout Blank]) rest.
Proof.
  intros Hjunk Hp. induction Hjunk as [|q junk Hq _ IH].
  - revert Hp. unfold answer. simpl.
    by destruct (py_in (lower p) ["yes"; "y"]),
                (py_in (lower p) ["no"; "n"]).
  - simpl app. by rewrite (confirm_other _ _ Hq), IH.
Qed.

Lemma confirm_no junk p rest :
  Forall (λ q, answer q = None) junk →
  answer p = Some false →
  confirm (junk ++ p :: rest) =
  MkRun (Exit 1) (replicate (S (length junk)) Prompt) rest.
Proof.
  intros Hjunk Hp. induction Hjunk as [|q junk Hq _ IH].
  - revert Hp. unfold answer. simpl.
    by destruct (py_in (lower p) ["yes"; "y"]),
                (py_in (lower p) ["no"; "n"]).
  - simpl app. by rewrite (confirm_other _ _ Hq), IH.
Qed.

Lemma confirm_eof stdin :
  Forall (λ q, answer q = None) stdin →
  confirm stdin =
  MkRun (Raise EOFError) (replicate (S (length stdin)) Prompt) [].
Proof.
  induction 1 as [|q junk Hq _ IH]; [done|].
  by rewrite (confirm_other _ _ Hq), IH.
Qed.

(** ** The pre-flight as a whole (lines 89-172) *)

Lemma resolved_wf reg o :
  registry_wf reg → Forall (λ i, _doc_types i ≠ []) (resolved_indices reg o).
Proof.
  unfold registry_wf, resolved_indices. intros Hwf.
  destruct (truthy (indices o)); [|done].
  rewrite Forall_forall in Hwf |- *.
  intros i Hi. apply list_elem_of_filter in Hi as [_ Hi]. by apply Hwf.
Qed.

Lemma validated registered objects stdin :
  Forall (λ model, lower model ∈ registered) objects →
  (if truthy objects then validate_objects registered objects []
   else mret []) stdin =
  MkRun (Ret objects) [] stdin.
Proof.
  intros Hall. destruct objects as [|model objects]; [done|].
  exact (validate_objects_known registered (model :: objects) [] stdin Hall).
Qed.

Lemma check_trace_stops o ts :
  Exists rejected ts → (check_trace o ts).2 = false.
Proof.
  intros Hex.
  destruct (first_rejected ts Hex) as (before & t & behind & e & -> & ? & ?).
  by erewrite check_trace_rejected.
Qed.

Lemma preflight_passes reg o stdin :
  registry_wf reg →
  ¬ preflight_fails reg o →
  preflight reg o stdin =
  MkRun
    (Ret (resolved_indices reg o,
          (selected_of reg o (objects o) (resolved_indices reg o),
           summary_line <$> targets reg o,
           target_kwargs <$> targets reg o)))
    (targets reg o ≫= check_events o) stdin.
Proof.
  intros Hwf Hok. unfold preflight_fails in Hok.
  assert (¬ unknown_object reg o) as Hobjects by tauto.
  assert (¬ unknown_index reg o) as Hindices by tauto.
  assert (¬ not_created reg o) as Hcreated by tauto.
  assert (¬ lookup_rejected reg o) as Hlookups by tauto.
  apply not_Exists_Forall in Hobjects; [|apply _].
  apply not_Exists_Forall in Hindices; [|apply _].
  apply not_Exists_Forall in Hcreated; [|apply _].
  apply not_Exists_Forall in Hlookups; [|apply _].
  unfold preflight.
  erewrite bind_Ret; last first.
  { apply validated. eapply Forall_impl; [exact Hobjects|].
    simpl. intros model Hmodel.
    by destruct (decide (lower model ∈ registered_models reg)). }
  rewrite after_nil.
  erewrite bind_Ret; last first.
  { apply filter_indices_known. eapply Forall_impl; [exact Hindices|].
    simpl. intros name Hname.
    by destruct (decide (name ∈ known_name reg)). }
  rewrite after_nil. fold (resolved_indices reg o).
  erewrite bind_Ret; last first.
  { apply ensure_created_ok. eapply Forall_impl; [exact Hcreated|].
    simpl. intros i Hi. by destruct (exists_ i). }
  rewrite after_nil.
  pose proof (check_fields_run reg o (objects o) (resolved_indices reg o)
                stdin (resolved_wf reg o Hwf)) as Hrun.
  simpl in Hrun. fold (targets reg o) in Hrun.
  rewrite check_trace_accepted in Hrun by done. simpl in Hrun.
  erewrite bind_Ret by exact Hrun.
  unfold after. simpl. by rewrite app_nil_r.
Qed.

Lemma preflight_aborts reg o stdin :
  registry_wf reg →
  preflight_fails reg o →
  outcome (preflight reg o stdin) = Exit 1.
Proof.
  intros Hwf Hfails. unfold preflight.
  destruct (decide (Exists (λ model, lower model ∉ registered_models reg)
                      (objects o))) as [Hobjects|Hobjects].
  { rewrite (truthy_Exists _ _ Hobjects).
    destruct (validate_objects_unknown _ _ [] stdin Hobjects)
      as (model & _ & _ & Hrun).
    by erewrite bind_Exit by exact Hrun. }
  apply not_Exists_Forall in Hobjects; [|apply _].
  erewrite bind_Ret; last first.
  { apply validated. eapply Forall_impl; [exact Hobjects|].
    simpl. intros model Hmodel.
    by destruct (decide (lower model ∈ registered_models reg)). }
  rewrite after_nil.
  destruct (decide (Exists (λ name, name ∉ known_name reg) (indices o)))
    as [Hindices|Hindices].
  { by erewrite bind_Exit by by apply filter_indices_unknown. }
  apply not_Exists_Forall in Hindices; [|apply _].
  erewrite bind_Ret; last first.
  { apply filter_indices_known. eapply Forall_impl; [exact Hindices|].
    simpl. intros name Hname.
    by destruct (decide (name ∈ known_name reg)). }
  rewrite after_nil. fold (resolved_indices reg o).
  destruct (decide (Exists (λ i, exists_ i = false) (resolved_indices reg o)))
    as [Hcreated|Hcreated].
  { by erewrite bind_Exit by by apply ensure_created_missing. }
  apply not_Exists_Forall in Hcreated; [|apply _].
  erewrite bind_Ret; last first.
  { apply ensure_created_ok. eapply Forall_impl; [exact Hcreated|].
    simpl. intros i Hi. by destruct (exists_ i). }
  rewrite after_nil.
  assert (lookup_rejected reg o) as Hlookups.
  { destruct Hfails as [?|[?|[?|?]]]; [| | |done].
    - by apply Forall_not_Exists in Hobjects.
    - by apply Forall_not_Exists in Hindices.
    - by apply Forall_not_Exists in Hcreated. }
  pose proof (check_fields_run reg o (objects o) (resolved_indices reg o)
                stdin (resolved_wf reg o Hwf)) as Hrun.
  simpl in Hrun. fold (targets reg o) in Hrun.
  rewrite (check_trace_stops o _ Hlookups) in Hrun.
  by erewrite bind_Exit by exact Hrun.
Qed.

(** ** The stage of the events of each phase *)

Lemma emitted_bind {A B} (m : M A) (f : A → M B) stdin :
  emitted ((m ≫= f) stdin) =
  emitted (m stdin) ++
  match outcome (m stdin) with
  | Ret a => emitted (f a (unread (m stdin)))
  | _ => []
  end.
Proof.
  unfold mbind, M_bind.
  destruct (outcome (m stdin)); simpl; by rewrite ?app_nil_r.
Qed.

Section Emits.

Context (P : Event → Prop).

Lemma emits_ret {A} (a : A) : emits P (mret a).
Proof. intros stdin. constructor. Qed.

Lemma emits_exit {A} code : emits P (exit (A:=A) code).
Proof. intros stdin. constructor. Qed.

Lemma emits_raise {A} e : emits P (raise (A:=A) e).
Proof. intros stdin. constructor. Qed.

Lemma emits_emit e : P e → emits P (emit e).
Proof. intros He stdin. by repeat constructor. Qed.

Lemma emits_bind {A B} (m : M A) (f : A → M B) :
  emits P m → (∀ a, emits P (f a)) → emits P (m ≫= f).
Proof.
  intros Hm Hf stdin. rewrite emitted_bind.
  apply Forall_app. split; [apply Hm|].
  destruct (outcome (m stdin)); [apply Hf|constructor..].
Qed.

Lemma emits_first {A} (l : list A) : emits P (first l).
Proof. destruct l; [apply emits_raise|apply emits_ret]. Qed.

End Emits.

Lemma emits_mono {A} (P Q : Event → Prop) (m : M A) :
  (∀ e, P e → Q e) → emits P m → emits Q m.
Proof. intros HPQ Hm stdin. eapply Forall_impl; [apply Hm|done]. Qed.

Create HintDb emits.
#[local] Hint Resolve emits_ret emits_exit emits_raise emits_bind emits_first
  : emits.
#[local] Hint Extern 1 (emits _ (emit _)) => apply emits_emit; done : emits.
#[local] Hint Extern 1 (emits _ (stderr_write _)) => apply emits_emit; done
  : emits.
#[local] Hint Extern 1 (emits _ (stdout_write _)) => apply emits_emit; done
  : emits.

Lemma validate_objects_stage registered objects valid_models :
  emits (λ e, stage e = Naming)
    (validate_objects registered objects valid_models).
Proof.
  revert valid_models.
  induction objects as [|model objects IH]; intros valid_models; simpl;
    [auto with emits|].
  destruct (py_in _ _); auto with emits.
Qed.

Lemma filter_indices_stage known names :
  emits (λ e, stage e = Naming) (filter_indices known names).
Proof.
  unfold filter_indices.
  destruct (truthy names); [|auto with emits].
  destruct (bool_decide _); auto with emits.
Qed.

Lemma ensure_created_stage idx :
  emits (λ e, stage e = Existence) (ensure_created idx).
Proof.
  unfold ensure_created. destruct (truthy _); auto 6 with emits.
Qed.

Lemma missing_exclude_stage o exclude index :
  emits (λ e, stage e = Fields) (missing_exclude o exclude index).
Proof.
  unfold missing_exclude. destruct (_ && _); auto with emits.
Qed.

Lemma check_objects_stage filter_ exclude_ count selected s kwargs_list :
  emits (λ e, stage e = Fields)
    (check_objects filter_ exclude_ count selected s kwargs_list).
Proof.
  revert s kwargs_list.
  induction selected as [|model selected IH]; intros s kwargs_list; simpl;
    [auto with emits|].
  apply emits_bind; [auto with emits|]. intros _.
  destruct (get_queryset _ _ _ _); auto with emits.
Qed.

Lemma check_indices_stage o filter_ exclude idx s kwargs_list :
  emits (λ e, stage e = Fields)
    (check_indices o filter_ exclude idx s kwargs_list).
Proof.
  revert s kwargs_list.
  induction idx as [|index idx IH]; intros s kwargs_list; simpl;
    [auto with emits|].
  apply emits_bind; [apply missing_exclude_stage|]. intros exclude_.
  apply emits_bind; [auto with emits|]. intros document.
  apply emits_bind; [auto with emits|]. intros _.
  destruct (get_queryset _ _ _ _); auto 6 with emits.
Qed.

Lemma check_fields_stage reg o valid_models idx :
  emits (λ e, stage e = Fields) (check_fields reg o valid_models idx).
Proof.
  unfold check_fields. destruct (truthy _).
  - apply emits_bind; [apply check_objects_stage|].
    intros [??]. auto with emits.
  - apply emits_bind; [apply check_indices_stage|].
    intros [??]. auto with emits.
Qed.

Lemma preflight_stage reg o :
  emits (λ e, before_announcement (stage e)) (preflight reg o).
Proof.
  unfold preflight, before_announcement.
  apply emits_bind.
  { destruct (truthy _); [|auto with emits].
    eapply emits_mono; [|apply validate_objects_stage]. naive_solver. }
  intros valid_models. apply emits_bind.
  { eapply emits_mono; [|apply filter_indices_stage]. naive_solver. }
  intros idx. apply emits_bind.
  { eapply emits_mono; [|apply ensure_created_stage]. naive_solver. }
  intros _. apply emits_bind; [|auto with emits].
  eapply emits_mono; [|apply check_fields_stage]. naive_solver.
Qed.

Lemma announce_stage o s : emits (λ e, stage e = Announcement) (announce o s).
Proof. unfold announce. destruct (_ || _); auto with emits. Qed.

Lemma confirm_stage : emits (λ e, stage e = Confirmation) confirm.
Proof.
  intros stdin. induction stdin as [|p rest IH]; simpl.
  - by repeat constructor.
  - destruct (py_in _ _); [by repeat constructor|].
    destruct (py_in _ _); by repeat constructor.
Qed.

Lemma process_stage o document kwargs :
  emits (λ e, stage e = Execution) (process o document kwargs).
Proof. unfold process. auto 6 with emits. Qed.

Lemma execute_objects_stage o ts result :
  emits (λ e, stage e = Execution) (execute_objects o ts result).
Proof.
  revert result. induction ts as [|[model kwargs] ts IH]; intros result; simpl;
    [auto with emits|].
  apply emits_bind; [apply process_stage|]. intros lines. apply IH.
Qed.

Lemma execute_indices_stage o ts result :
  emits (λ e, stage e = Execution) (execute_indices o ts result).
Proof.
  revert result. induction ts as [|[index kwargs] ts IH]; intros result; simpl;
    [auto with emits|].
  apply emits_bind; [auto with emits|]. intros document.
  apply emits_bind; [apply process_stage|]. intros lines. apply IH.
Qed.

Lemma execute_stage o idx selected kwargs_list :
  emits (λ e, stage e = Execution) (execute o idx selected kwargs_list).
Proof.
  unfold execute. apply emits_bind.
  - destruct (truthy _);
      [apply execute_objects_stage|apply execute_indices_stage].
  - intros result. destruct (bool_decide _); auto with emits.
Qed.

(** ** The command as a whole *)

Lemma announce_run o ts stdin :
  announce o (summary_line <$> ts) stdin =
  MkRun (Ret tt) (announcement o ts) stdin.
Proof. unfold announce, announcement. by destruct (_ || _). Qed.

Lemma run_aborted reg o stdin code :
  outcome (preflight reg o stdin) = Exit code →
  _manage_document reg o stdin =
  MkRun (Exit code) (emitted (preflight reg o stdin))
    (unread (preflight reg o stdin)).
Proof.
  destruct (preflight reg o stdin) as [oc evs rest] eqn:Hrun. simpl.
  intros ->. unfold _manage_document. by erewrite bind_Exit by exact Hrun.
Qed.

Lemma run_passes reg o stdin :
  registry_wf reg →
  ¬ preflight_fails reg o →
  _manage_document reg o stdin =
  after ((targets reg o ≫= check_events o) ++ announcement o (targets reg o))
    ((gate o ;;
      execute o (resolved_indices reg o)
        (selected_of reg o (objects o) (resolved_indices reg o))
        (target_kwargs <$> targets reg o)) stdin).
Proof.
  intros Hwf Hok. unfold _manage_document.
  erewrite bind_Ret by by apply preflight_passes.
  cbv beta iota.
  erewrite (bind_Ret (announce _ _)) by apply announce_run.
  by rewrite after_after.
Qed.

Lemma run_executes reg o stdin asked rest :
  registry_wf reg →
  ¬ preflight_fails reg o →
  gate o stdin = MkRun (Ret tt) asked rest →
  _manage_document reg o stdin =
  MkRun (Ret tt)
    ((targets reg o ≫= check_events o) ++ announcement o (targets reg o) ++
     asked ++ (targets reg o ≫= process_events o) ++
     report_events o (targets reg o))
    rest.
Proof.
  intros Hwf Hok Hgate. rewrite run_passes by done.
  erewrite bind_Ret by exact Hgate.
  pose proof (execute_run reg o (objects o) (resolved_indices reg o) rest
                (resolved_wf reg o Hwf)) as Hrun.
  simpl in Hrun. fold (targets reg o) in Hrun. rewrite Hrun.
  unfold after. simpl. by rewrite <- !app_assoc.
Qed.

Lemma run_declined reg o stdin asked rest code :
  registry_wf reg →
  ¬ preflight_fails reg o →
  gate o stdin = MkRun (Exit code) asked rest →
  _manage_document reg o stdin =
  MkRun (Exit code)
    ((targets reg o ≫= check_events o) ++ announcement o (targets reg o) ++
     asked)
    rest.
Proof.
  intros Hwf Hok Hgate. rewrite run_passes by done.
  erewrite bind_Exit by exact Hgate.
  unfold after. simpl. by rewrite <- !app_assoc.
Qed.

(** ** Reading the traces of the stages *)

Lemma writes_app evs evs' : writes (evs ++ evs') = writes evs ++ writes evs'.
Proof. apply filter_app. Qed.

Lemma writes_outside evs :
  Forall (λ e, stage e ≠ Execution) evs → writes evs = [].
Proof.
  induction 1 as [|e evs He _ IH]; [done|].
  unfold writes in *. rewrite filter_cons_False; [done|].
  destruct e as [m|m| | | | |]; simpl in *; auto.
Qed.

Lemma prompts_app evs evs' :
  prompts (evs ++ evs') = (prompts evs + prompts evs')%nat.
Proof. unfold prompts. by rewrite filter_app, length_app. Qed.

Lemma prompts_outside evs :
  Forall (λ e, stage e ≠ Confirmation) evs → prompts evs = 0%nat.
Proof.
  induction 1 as [|e evs He _ IH]; [done|].
  unfold prompts in *. rewrite filter_cons_False; [done|].
  destruct e as [m|m| | | | |]; simpl in *; auto.
Qed.

Lemma check_events_stage o ts :
  Forall (λ e, stage e = Fields) (ts ≫= check_events o).
Proof.
  apply Forall_bind, Forall_forall. intros t _.
  unfold compose, check_events.
  destruct (target_index t); [destruct (_ && _)|]; by repeat constructor.
Qed.

Lemma announcement_stage o ts :
  Forall (λ e, stage e = Announcement) (announcement o ts).
Proof. unfold announcement. destruct (_ || _); by repeat constructor. Qed.

Lemma report_events_stage o ts :
  Forall (λ e, stage e = Execution) (report_events o ts).
Proof. unfold report_events. destruct (bool_decide _); by repeat constructor. Qed.

Lemma writes_process o ts :
  writes (ts ≫= process_events o) = write_of o <$> ts.
Proof.
  induction ts as [|t ts IH]; [done|].
  rewrite bind_cons, writes_app, IH. done.
Qed.

Lemma writes_report o ts : writes (report_events o ts) = [].
Proof. unfold report_events. by destruct (bool_decide _). Qed.

Lemma stage_differs (s s' : Stage) evs :
  s ≠ s' → Forall (λ e, stage e = s) evs → Forall (λ e, stage e ≠ s') evs.
Proof.
  intros Hne Hall. eapply Forall_impl; [exact Hall|]. by intros e ->.
Qed.

Lemma gate_stage o : emits (λ e, stage e = Confirmation) (gate o).
Proof.
  unfold gate. destruct (negb _); [apply confirm_stage|apply emits_ret].
Qed.

(** * The claims of the specification *)

(** ** C1: a pre-flight failure writes nothing *)

(** C1. A run of the document command that fails the pre-flight
    validation (an unknown object name, an unknown index name, a
    working index that is not created, or a field lookup the store rejects
    on any target) exits with code 1 and makes no update call at all, so
    no target is left partially written. *)
Theorem preflight_failure_writes_nothing reg o stdin :
  registry_wf reg →
  preflight_fails reg o →
  outcome (_manage_document reg o stdin) = Exit 1 ∧
  writes (emitted (_manage_document reg o stdin)) = [].
Proof.
  intros Hwf Hfails.
  rewrite (run_aborted reg o stdin 1) by by apply preflight_aborts.
  simpl. split; [done|].
  apply writes_outside.
  eapply Forall_impl; [apply preflight_stage|].
  by intros e [->|[->| ->]].
Qed.

(** ** C3: the filter parser *)

(** C3, as the code has it.  A filter string with exactly one ['='] is
    cut at it: the parser returns the text before it with the coerced
    text behind it (or reports a malformed filter when the coercion
    raises [ValueError]).  With no ['='], or with more than one, the
    parser prints the usage and the error and exits with code 1. *)
Theorem db_filter_one_separator parse given stdin :
  (occurrences "=" given = 1%nat →
   ∃ lookup v,
     given = lookup +:+ "=" +:+ v ∧
     wrap parse given stdin =
     match parse v with
     | Some coerced => MkRun (Ret (lookup, coerced)) [] stdin
     | None =>
         MkRun (Exit 1) [Stderr Usage; Stderr (InvalidFilter given)] stdin
     end) ∧
  (occurrences "=" given ≠ 1%nat →
   wrap parse given stdin =
   MkRun (Exit 1) [Stderr Usage; Stderr (InvalidFilter given)] stdin).
Proof.
  split.
  - intros Hone.
    destruct (split_once "=" given Hone) as (lookup & v & Hgiven & Hsplit).
    exists lookup, v. split; [done|].
    unfold wrap. rewrite Hsplit. by destruct (parse v).
  - intros Hother. unfold wrap.
    pose proof (split_length "=" given) as Hlen.
    destruct (split "=" given) as [|lookup [|v [|piece pieces]]]; try done.
    simpl in Hlen. destruct Hother. congruence.
Qed.

(** ** C8: the order of the filters *)

Lemma passes_foldl holds q qs r :
  selects holds (foldl QAnd q qs) r =
  selects holds q r && forallb (λ q, selects holds q r) qs.
Proof.
  revert q. induction qs as [|q' qs IH]; intros q; simpl.
  - by rewrite andb_true_r.
  - by rewrite IH, andb_assoc.
Qed.

Lemma passes_conjunction holds pairs r :
  passes holds (conjunction pairs) r =
  forallb (λ kv, holds kv.1 kv.2 r) pairs.
Proof.
  unfold conjunction. destruct pairs as [|[k v] pairs]; [done|].
  simpl. rewrite passes_foldl. f_equal.
  induction pairs as [|[k' v'] pairs IH]; [done|]. simpl. by rewrite IH.
Qed.

Lemma forallb_permutation {A} (f : A → bool) (l l' : list A) :
  l ≡ₚ l' → forallb f l = forallb f l'.
Proof.
  induction 1 as [|x l l' _ IH|x y l|l l' l'' _ IH _ IH']; simpl.
  - done.
  - by rewrite IH.
  - rewrite !andb_assoc. f_equal. apply andb_comm.
  - by rewrite IH.
Qed.

(** C8. The predicate built from a list of [lookup=value] pairs (the
    includes of line 91, the excludes of line 92) is their logical AND:
    it selects a row exactly when every pair holds of the row, and every
    row when there is no pair.  So it selects the same rows whatever the
    order of the pairs. *)
Theorem conjunction_order_independent holds pairs pairs' r :
  pairs ≡ₚ pairs' →
  passes holds (conjunction pairs) r
  = forallb (λ kv, holds kv.1 kv.2 r) pairs ∧
  passes holds (conjunction pairs) r = passes holds (conjunction pairs') r.
Proof.
  intros Hperm. split.
  - apply passes_conjunction.
  - rewrite !passes_conjunction. by apply forallb_permutation.
Qed.

(** ** The pre-flight, failure by failure *)

Lemma preflight_unknown_object reg o stdin :
  unknown_object reg o →
  ∃ model,
    preflight reg o stdin =
    MkRun (Exit 1) [Stderr (UnknownObject model (registered_models reg))]
      stdin.
Proof.
  intros Hobjects. unfold preflight.
  rewrite (truthy_Exists _ _ Hobjects).
  destruct (validate_objects_unknown _ _ [] stdin Hobjects)
    as (model & _ & _ & Hrun).
  exists model. by erewrite bind_Exit by exact Hrun.
Qed.

Lemma preflight_names_objects reg o stdin :
  ¬ unknown_object reg o →
  preflight reg o stdin =
  (indices ← filter_indices (get_indices reg) (indices o);
   ensure_created indices ;;
   checked ← check_fields reg o (objects o) indices;
   mret (indices, checked)) stdin.
Proof.
  intros Hobjects. apply not_Exists_Forall in Hobjects; [|apply _].
  unfold preflight.
  erewrite bind_Ret; last first.
  { apply validated. eapply Forall_impl; [exact Hobjects|].
    simpl. intros model Hmodel.
    by destruct (decide (lower model ∈ registered_models reg)). }
  by rewrite after_nil.
Qed.

Lemma preflight_unknown_index reg o stdin :
  ¬ unknown_object reg o →
  unknown_index reg o →
  preflight reg o stdin =
  MkRun (Exit 1)
    [Stderr (UnknownIndices
               (elements (list_to_set (indices o) ∖
                          list_to_set (known_name reg) : gset string))
               (known_name reg))]
    stdin.
Proof.
  intros Hobjects Hindices. rewrite preflight_names_objects by done.
  by erewrite bind_Exit by by apply filter_indices_unknown.
Qed.

Lemma preflight_names reg o stdin :
  ¬ unknown_object reg o →
  ¬ unknown_index reg o →
  preflight reg o stdin =
  (ensure_created (resolved_indices reg o) ;;
   checked ← check_fields reg o (objects o) (resolved_indices reg o);
   mret (resolved_indices reg o, checked)) stdin.
Proof.
  intros Hobjects Hindices. rewrite preflight_names_objects by done.
  apply not_Exists_Forall in Hindices; [|apply _].
  erewrite bind_Ret; last first.
  { apply filter_indices_known. eapply Forall_impl; [exact Hindices|].
    simpl. intros name Hname.
    by destruct (decide (name ∈ known_name reg)). }
  by rewrite after_nil.
Qed.

Lemma preflight_not_created reg o stdin :
  ¬ unknown_object reg o →
  ¬ unknown_index reg o →
  not_created reg o →
  preflight reg o stdin =
  MkRun (Exit 1)
    [Stderr (NotCreated
               (_name <$> filter (λ i, exists_ i = false)
                            (resolved_indices reg o)));
     Stderr ListHint]
    stdin.
Proof.
  intros Hobjects Hindices Hcreated. rewrite preflight_names by done.
  by erewrite bind_Exit by by apply ensure_created_missing.
Qed.

Lemma preflight_checks reg o stdin :
  ¬ unknown_object reg o →
  ¬ unknown_index reg o →
  ¬ not_created reg o →
  preflight reg o stdin =
  (checked ← check_fields reg o (objects o) (resolved_indices reg o);
   mret (resolved_indices reg o, checked)) stdin.
Proof.
  intros Hobjects Hindices Hcreated. rewrite preflight_names by done.
  apply not_Exists_Forall in Hcreated; [|apply _].
  erewrite bind_Ret; last first.
  { apply ensure_created_ok. eapply Forall_impl; [exact Hcreated|].
    simpl. intros i Hi. by destruct (exists_ i). }
  by rewrite after_nil.
Qed.

Lemma preflight_rejects reg o stdin before t behind e :
  registry_wf reg →
  ¬ unknown_object reg o →
  ¬ unknown_index reg o →
  ¬ not_created reg o →
  targets reg o = before ++ t :: behind →
  Forall (λ t, ¬ rejected t) before →
  queryset_of t = inl e →
  preflight reg o stdin =
  MkRun (Exit 1)
    (((before ++ [t]) ≫= check_events o) ++ [Stderr (filter_error t e)])
    stdin.
Proof.
  intros Hwf Hobjects Hindices Hcreated Hts Hbefore Ht.
  rewrite preflight_checks by done.
  pose proof (check_fields_run reg o (objects o) (resolved_indices reg o)
                stdin (resolved_wf reg o Hwf)) as Hrun.
  simpl in Hrun. fold (targets reg o) in Hrun.
  rewrite Hts, (check_trace_rejected o before t behind e) in Hrun by done.
  simpl in Hrun. erewrite bind_Exit by exact Hrun.
  rewrite bind_app, bind_cons. simpl. by rewrite app_nil_r, <- app_assoc.
Qed.

Lemma stderr_of_app evs evs' :
  stderr_of (evs ++ evs') = stderr_of evs ++ stderr_of evs'.
Proof. apply omap_app. Qed.

Lemma stderr_of_checks o ts : stderr_of (ts ≫= check_events o) = [].
Proof.
  induction ts as [|t ts IH]; [done|].
  rewrite bind_cons, stderr_of_app, IH, app_nil_r.
  unfold check_events.
  by destruct (target_index t); [destruct (_ && _)|].
Qed.

(** ** C5: a rejected field lookup *)

(** C5, as the code has it.  When the store rejects the field lookup of a
    target, the error of the first such target is reported, naming its
    model, and the run aborts at once with exit code 1: the querysets
    built are those of the targets up to that one, and nothing is
    reported for a later target. *)
Theorem first_rejection_aborts reg o stdin before t behind e :
  registry_wf reg →
  ¬ unknown_object reg o →
  ¬ unknown_index reg o →
  ¬ not_created reg o →
  targets reg o = before ++ t :: behind →
  Forall (λ t, ¬ rejected t) before →
  queryset_of t = inl e →
  _manage_document reg o stdin =
  MkRun (Exit 1)
    (((before ++ [t]) ≫= check_events o) ++
     [Stderr (FilterError (model_name t) (_name <$> target_index t) e)])
    stdin ∧
  stderr_of (emitted (_manage_document reg o stdin)) =
  [FilterError (model_name t) (_name <$> target_index t) e].
Proof.
  intros Hwf Hobjects Hindices Hcreated Hts Hbefore Ht.
  pose proof (preflight_rejects reg o stdin before t behind e Hwf Hobjects
                Hindices Hcreated Hts Hbefore Ht) as Hrun.
  assert (_manage_document reg o stdin =
          MkRun (Exit 1)
            (((before ++ [t]) ≫= check_events o) ++
             [Stderr (filter_error t e)]) stdin) as ->.
  { rewrite (run_aborted reg o stdin 1) by by rewrite Hrun.
    by rewrite Hrun. }
  split; [done|]. simpl.
  by rewrite stderr_of_app, stderr_of_checks.
Qed.

(** ** C6: the existence check *)

Lemma continuation_stage o idx selected s kwargs_list :
  emits (λ e, ¬ before_announcement (stage e))
    (announce o s ;; gate o ;; execute o idx selected kwargs_list).
Proof.
  unfold before_announcement.
  apply emits_bind.
  { eapply emits_mono; [|apply announce_stage]. by intros e -> [?|[?|?]]. }
  intros _. apply emits_bind.
  { eapply emits_mono; [|apply gate_stage]. by intros e -> [?|[?|?]]. }
  intros _. eapply emits_mono; [|apply execute_stage].
  by intros e -> [?|[?|?]].
Qed.

Lemma run_existence_events reg o stdin e :
  e ∈ emitted (_manage_document reg o stdin) →
  stage e = Existence →
  e ∈ emitted (preflight reg o stdin).
Proof.
  unfold _manage_document. rewrite emitted_bind.
  intros [He|He]%elem_of_app Hstage; [done|].
  destruct (outcome (preflight reg o stdin))
    as [[idx [[selected s] kwargs_list]]| |];
    [|by apply not_elem_of_nil in He..].
  pose proof (continuation_stage o idx selected s kwargs_list
                (unread (preflight reg o stdin))) as Hlater.
  rewrite Forall_forall in Hlater. destruct (Hlater e He).
  unfold before_announcement. rewrite Hstage. auto.
Qed.

(** C6, as the code has it.  The existence check aborts the command
    exactly when, the names being valid, some index of the working set is
    not created; the working set is made of the registered indices named
    by [--indices], or of every registered index when none is named, and
    object names do not narrow it.  The command then prints the names of
    the working indices that are not created and exits with code 1. *)
Theorem existence_check_aborts_iff reg o stdin :
  ((∃ names,
      Stderr (NotCreated names) ∈ emitted (_manage_document reg o stdin)) ↔
   ¬ unknown_object reg o ∧ ¬ unknown_index reg o ∧
   Exists (λ i, exists_ i = false)
     (if truthy (indices o)
      then filter (λ i, _name i ∈ indices o) (get_indices reg)
      else get_indices reg)) ∧
  (¬ unknown_object reg o ∧ ¬ unknown_index reg o ∧ not_created reg o →
   _manage_document reg o stdin =
   MkRun (Exit 1)
     [Stderr (NotCreated
                (_name <$> filter (λ i, exists_ i = false)
                             (resolved_indices reg o)));
      Stderr ListHint]
     stdin).
Proof.
  assert (¬ unknown_object reg o ∧ ¬ unknown_index reg o ∧ not_created reg o →
          _manage_document reg o stdin =
          MkRun (Exit 1)
            [Stderr (NotCreated
                       (_name <$> filter (λ i, exists_ i = false)
                                    (resolved_indices reg o)));
             Stderr ListHint]
            stdin) as Haborts.
  { intros (Hobjects & Hindices & Hcreated).
    pose proof (preflight_not_created reg o stdin Hobjects Hindices Hcreated)
      as Hrun.
    rewrite (run_aborted reg o stdin 1) by by rewrite Hrun.
    by rewrite Hrun. }
  split; [|done]. fold (resolved_indices reg o). fold (not_created reg o).
  split.
  - intros [names Hin].
    apply run_existence_events in Hin; [|done].
    destruct (decide (Exists (λ model, lower model ∉ registered_models reg)
                        (objects o))) as [Hobjects|Hobjects].
    { destruct (preflight_unknown_object reg o stdin Hobjects)
        as [model Hrun].
      rewrite Hrun in Hin. simpl in Hin.
      by apply list_elem_of_singleton in Hin. }
    destruct (decide (Exists (λ name, name ∉ known_name reg) (indices o)))
      as [Hindices|Hindices].
    { rewrite preflight_unknown_index in Hin by done. simpl in Hin.
      by apply list_elem_of_singleton in Hin. }
    destruct (decide (Exists (λ i, exists_ i = false)
                        (resolved_indices reg o))) as [Hcreated|Hcreated];
      [done|].
    rewrite preflight_checks in Hin by done.
    assert (emits (λ e, stage e = Fields)
              (checked ← check_fields reg o (objects o)
                           (resolved_indices reg o);
               mret (resolved_indices reg o, checked))) as Hfields.
    { apply emits_bind; [apply check_fields_stage|]. intros. apply emits_ret. }
    specialize (Hfields stdin). rewrite Forall_forall in Hfields.
    by apply Hfields in Hin.
  - intros Hconditions. rewrite (Haborts Hconditions). simpl.
    eexists. by left.
Qed.

(** ** C7: failures of single documents *)

Lemma process_events_stage o ts :
  Forall (λ e, stage e = Execution) (ts ≫= process_events o).
Proof.
  apply Forall_bind, Forall_forall. intros t _.
  unfold compose, process_events. by repeat constructor.
Qed.

Lemma writes_of_run o ts asked :
  Forall (λ e, stage e = Confirmation) asked →
  writes ((ts ≫= check_events o) ++ announcement o ts ++ asked ++
          (ts ≫= process_events o) ++ report_events o ts) =
  write_of o <$> ts.
Proof.
  intros Hasked. rewrite !writes_app, writes_process, writes_report.
  rewrite (writes_outside (ts ≫= check_events o));
    [|apply (stage_differs Fields); [done|apply check_events_stage]].
  rewrite (writes_outside (announcement o ts));
    [|apply (stage_differs Announcement); [done|apply announcement_stage]].
  rewrite (writes_outside asked);
    [|by apply (stage_differs Confirmation)].
  simpl. by rewrite app_nil_r.
Qed.

Lemma answer_yes p : lower p ∈ ["yes"; "y"] → answer p = Some true.
Proof.
  intros Hp. unfold answer, py_in. by rewrite bool_decide_eq_true_2 by done.
Qed.

Lemma answer_no p : lower p ∈ ["no"; "n"] → answer p = Some false.
Proof.
  intros Hp. unfold answer, py_in.
  rewrite (bool_decide_eq_true_2 (lower p ∈ ["no"; "n"])) by done.
  rewrite bool_decide_eq_false_2; [done|].
  intros Hyes. rewrite !elem_of_cons, elem_of_nil in Hp, Hyes.
  destruct Hp as [Hp|[Hp|[]]]; rewrite Hp in Hyes;
    by destruct Hyes as [?|[?|[]]].
Qed.

Lemma answer_other p :
  lower p ∉ ["yes"; "y"; "no"; "n"] → answer p = None.
Proof.
  intros Hp. unfold answer, py_in.
  rewrite !elem_of_cons, elem_of_nil in Hp.
  rewrite !bool_decide_eq_false_2; [done|..];
    rewrite !elem_of_cons, elem_of_nil; tauto.
Qed.

Lemma gate_confirmed o stdin :
  confirmed o stdin →
  ∃ asked rest,
    gate o stdin = MkRun (Ret tt) asked rest ∧
    Forall (λ e, stage e = Confirmation) asked.
Proof.
  intros Hconfirmed.
  assert (∃ asked rest, gate o stdin = MkRun (Ret tt) asked rest)
    as (asked & rest & Hgate).
  { unfold gate. destruct Hconfirmed as [->|(junk & p & rest & -> & Hjunk & Hp)].
    - by exists [], stdin.
    - destruct (force o); [by eexists [], _|]. simpl.
      eexists _, rest. apply confirm_yes; [|by apply answer_yes].
      eapply Forall_impl; [exact Hjunk|]. apply answer_other. }
  exists asked, rest. split; [done|].
  pose proof (gate_stage o stdin) as Hstage. by rewrite Hgate in Hstage.
Qed.

Lemma update_counts document qs a :
  let refused := filter (λ r, bulk document a r ≠ None) qs in
  (update document qs a).1 =
  Z.of_nat (length qs) - Z.of_nat (length refused) ∧
  length (update document qs a).2 = length refused.
Proof.
  unfold update. simpl.
  induction qs as [|r qs [IHs IHe]]; [by rewrite !filter_nil|].
  rewrite !filter_cons.
  change (omap (bulk document a) (r :: qs))
    with (match bulk document a r with
          | Some descriptor => descriptor :: omap (bulk document a) qs
          | None => omap (bulk document a) qs
          end).
  destruct (bulk document a r) as [descriptor|] eqn:Hr.
  - rewrite decide_False, decide_True by done. simpl length.
    split; [lia|by rewrite IHe].
  - rewrite decide_True, decide_False by auto. simpl length.
    split; [lia|done].
Qed.

(** C7. Failures of single documents are collected, never raised: once
    the run executes, every target is written, one after the other, and
    the command ends normally; the aggregate of a target whose [N]
    documents hold [M] the engine rejects is a success count of [N - M]
    with a list of exactly [M] failure descriptors. *)
Theorem failures_are_collected reg o stdin :
  registry_wf reg →
  ¬ preflight_fails reg o →
  confirmed o stdin →
  outcome (_manage_document reg o stdin) = Ret tt ∧
  writes (emitted (_manage_document reg o stdin)) =
  (λ t, Update (target_document t) (indexing_queryset o t) (parallel o)
          (refresh o) (action o) false
          (update (target_document t) (indexing_queryset o t) (action o)))
  <$> targets reg o ∧
  Forall (λ t,
            let qs := indexing_queryset o t in
            let refused :=
              filter (λ r, bulk (target_document t) (action o) r ≠ None) qs in
            let result := update (target_document t) qs (action o) in
            result.1 = Z.of_nat (length qs) - Z.of_nat (length refused) ∧
            length result.2 = length refused)
         (targets reg o).
Proof.
  intros Hwf Hok Hconfirmed.
  destruct (gate_confirmed o stdin Hconfirmed)
    as (asked & rest & Hgate & Hasked).
  rewrite (run_executes reg o stdin asked rest) by done. simpl.
  split_and!; [done|by apply writes_of_run|].
  apply Forall_forall. intros t _. apply update_counts.
Qed.

(** ** C9: the confirmation *)

Lemma bind_after {A B} (m : M A) (f : A → M B) stdin stdin' evs :
  m stdin = after evs (m stdin') →
  (m ≫= f) stdin = after evs ((m ≫= f) stdin').
Proof.
  intros Hm. unfold mbind, M_bind, after. rewrite Hm. simpl.
  destruct (outcome (m stdin')); simpl; by rewrite ?app_assoc.
Qed.

Lemma prompts_of_run o ts :
  prompts ((ts ≫= check_events o) ++ announcement o ts ++
           (ts ≫= process_events o) ++ report_events o ts) = 0%nat.
Proof.
  apply prompts_outside. rewrite !Forall_app. split_and!.
  - apply (stage_differs Fields); [done|apply check_events_stage].
  - apply (stage_differs Announcement); [done|apply announcement_stage].
  - apply (stage_differs Execution); [done|apply process_events_stage].
  - apply (stage_differs Execution); [done|apply report_events_stage].
Qed.

(** C9. Without [--force], the execution is gated on the confirmation
    loop: a line whose lower case is [yes] or [y] lets the run write every
    target, a line whose lower case is [no] or [n] ends it with exit code 1
    and nothing written, and any other line is followed by one more
    prompt, the run going on as it would on the rest of stdin.  With
    [--force] no confirmation is asked for and stdin is not read. *)
Theorem confirmation_gates_execution reg o p rest stdin :
  registry_wf reg →
  ¬ preflight_fails reg o →
  (force o = false →
   (lower p ∈ ["yes"; "y"] →
    outcome (_manage_document reg o (p :: rest)) = Ret tt ∧
    writes (emitted (_manage_document reg o (p :: rest))) =
    write_of o <$> targets reg o ∧
    unread (_manage_document reg o (p :: rest)) = rest) ∧
   (lower p ∈ ["no"; "n"] →
    outcome (_manage_document reg o (p :: rest)) = Exit 1 ∧
    writes (emitted (_manage_document reg o (p :: rest))) = []) ∧
   (lower p ∉ ["yes"; "y"; "no"; "n"] →
    outcome (_manage_document reg o (p :: rest)) =
    outcome (_manage_document reg o rest) ∧
    unread (_manage_document reg o (p :: rest)) =
    unread (_manage_document reg o rest) ∧
    ∃ before behind,
      emitted (_manage_document reg o rest) = before ++ behind ∧
      emitted (_manage_document reg o (p :: rest)) =
      before ++ Prompt :: behind)) ∧
  (force o = true →
   prompts (emitted (_manage_document reg o stdin)) = 0%nat ∧
   unread (_manage_document reg o stdin) = stdin ∧
   writes (emitted (_manage_document reg o stdin)) =
   write_of o <$> targets reg o).
Proof.
  intros Hwf Hok. split.
  - intros Hforce.
    assert (gate o = confirm) as Hgate by (unfold gate; by rewrite Hforce).
    split_and!.
    + intros Hp.
      pose proof (confirm_yes [] p rest (Forall_nil_2 _) (answer_yes p Hp))
        as Hconfirm.
      rewrite (run_executes reg o (p :: rest) [Prompt; Stdout Blank] rest)
        by (by rewrite ?Hgate).
      simpl. split_and!; [done| |done].
      apply (writes_of_run o (targets reg o) [Prompt; Stdout Blank]).
      by repeat constructor.
    + intros Hp.
      pose proof (confirm_no [] p rest (Forall_nil_2 _) (answer_no p Hp))
        as Hconfirm.
      rewrite (run_declined reg o (p :: rest) [Prompt] rest 1)
        by (by rewrite ?Hgate).
      simpl. split; [done|].
      apply writes_outside. rewrite !Forall_app. split_and!.
      * apply (stage_differs Fields); [done|apply check_events_stage].
      * apply (stage_differs Announcement); [done|apply announcement_stage].
      * by repeat constructor.
    + intros Hp. rewrite !run_passes by done.
      erewrite (bind_after (gate o)); last first.
      { rewrite Hgate. apply confirm_other, answer_other, Hp. }
      split_and!; [done..|].
      eexists _, _. split; [reflexivity|].
      simpl. by rewrite <- app_assoc.
  - intros Hforce.
    rewrite (run_executes reg o stdin [] stdin)
      by (try done; unfold gate; by rewrite Hforce).
    simpl. split_and!; [apply prompts_of_run|done|].
    by apply (writes_of_run o (targets reg o) []).
Qed.

(** ** C10: the database option *)

Lemma execute_objects_database db db' o ts result stdin :
  execute_objects (with_database db o) ts result stdin =
  execute_objects (with_database db' o) ts result stdin.
Proof.
  revert result stdin.
  induction ts as [|[model kwargs] ts IH]; intros result stdin; [done|].
  simpl. unfold mbind, M_bind.
  change (process (with_database db o) model kwargs)
    with (process (with_database db' o) model kwargs).
  destruct (outcome _); [|done..]. by rewrite IH.
Qed.

Lemma bind_cong {A B} (m m' : M A) (f g : A → M B) stdin :
  m stdin = m' stdin →
  (∀ a stdin', f a stdin' = g a stdin') →
  (m ≫= f) stdin = (m' ≫= g) stdin.
Proof.
  intros Hm Hfg. unfold mbind, M_bind. rewrite Hm.
  destruct (outcome (m' stdin)); [|done..]. by rewrite Hfg.
Qed.

Lemma check_fields_database db db' reg o valid_models idx stdin :
  truthy (objects o) = true →
  check_fields reg (with_database db o) valid_models idx stdin =
  check_fields reg (with_database db' o) valid_models idx stdin.
Proof.
  intros Hobjects. unfold check_fields. simpl. by rewrite Hobjects.
Qed.

Lemma execute_database db db' o idx selected kwargs_list stdin :
  truthy (objects o) = true →
  execute (with_database db o) idx selected kwargs_list stdin =
  execute (with_database db' o) idx selected kwargs_list stdin.
Proof.
  intros Hobjects. unfold execute. simpl. rewrite Hobjects.
  apply bind_cong; [apply execute_objects_database|done].
Qed.

Lemma run_database db db' reg o stdin :
  truthy (objects o) = true →
  _manage_document reg (with_database db o) stdin =
  _manage_document reg (with_database db' o) stdin.
Proof.
  intros Hobjects. unfold _manage_document.
  apply bind_cong.
  - unfold preflight. simpl.
    apply bind_cong; [done|]. intros valid_models stdin1.
    apply bind_cong; [done|]. intros idx stdin2.
    apply bind_cong; [done|]. intros _ stdin3.
    apply bind_cong; [by apply check_fields_database|done].
  - intros [idx [[selected s] kwargs_list]] stdin1.
    apply bind_cong; [done|]. intros _ stdin2.
    apply bind_cong; [done|]. intros _ stdin3.
    by apply execute_database.
Qed.

(** Every call to [get_indexing_queryset] is the one of a target. *)
Lemma run_indexing_args reg o stdin :
  registry_wf reg →
  Forall (λ e, ∀ document args,
            e = GetIndexingQueryset document args →
            ∃ t, t ∈ targets reg o ∧ args = indexing_args o t)
    (emitted (_manage_document reg o stdin)).
Proof.
  intros Hwf.
  assert (∀ evs, Forall (λ e, stage e ≠ Execution) evs →
                 Forall (λ e, ∀ document args,
                           e = GetIndexingQueryset document args →
                           ∃ t, t ∈ targets reg o ∧ args = indexing_args o t)
                   evs) as Houtside.
  { intros evs Hevs. eapply Forall_impl; [exact Hevs|].
    by intros e He document args ->. }
  destruct (decide (preflight_fails reg o)) as [Hfails|Hok].
  { rewrite (run_aborted reg o stdin 1) by by apply preflight_aborts.
    simpl. apply Houtside.
    eapply Forall_impl; [apply preflight_stage|]. by intros e [->|[->| ->]]. }
  rewrite run_passes by done. unfold after. simpl emitted.
  rewrite emitted_bind, !Forall_app. split_and!.
  - apply Houtside, (stage_differs Fields); [done|apply check_events_stage].
  - apply Houtside, (stage_differs Announcement);
      [done|apply announcement_stage].
  - apply Houtside, (stage_differs Confirmation); [done|apply gate_stage].
  - destruct (outcome (gate o stdin)); [|constructor..].
    pose proof (execute_run reg o (objects o) (resolved_indices reg o)
                  (unread (gate o stdin)) (resolved_wf reg o Hwf)) as Hrun.
    simpl in Hrun. fold (targets reg o) in Hrun. rewrite Hrun. simpl.
    apply Forall_app. split.
    + apply Forall_bind, Forall_forall. intros t Ht.
      unfold compose, process_events. repeat constructor.
      * intros document args [= <- <-]. by exists t.
      * by intros document args.
    + unfold report_events.
      destruct (bool_decide _); by repeat constructor.
Qed.

(** C10. When object names are given, the database option has no effect:
    two runs that differ in its value only are the same run, and no call
    to the indexing queryset carries a [db_alias]; in the index-only
    branch every such call carries the database option as its
    [db_alias]. *)
Theorem database_ignored_for_objects reg o stdin db db' :
  registry_wf reg →
  (truthy (objects o) = true →
   _manage_document reg (with_database db o) stdin =
   _manage_document reg (with_database db' o) stdin ∧
   Forall (λ e, ∀ document args,
             e = GetIndexingQueryset document args →
             kw_db_alias (ia_kwargs args) = None)
     (emitted (_manage_document reg o stdin))) ∧
  (truthy (objects o) = false →
   Forall (λ e, ∀ document args,
             e = GetIndexingQueryset document args →
             kw_db_alias (ia_kwargs args) = Some (database o))
     (emitted (_manage_document reg o stdin))).
Proof.
  intros Hwf. split; intros Hobjects; [split; [by apply run_database|]|].
  - eapply Forall_impl; [by apply run_indexing_args|].
    intros e He document args ->.
    destruct (He document args eq_refl) as (t & Ht & ->).
    unfold targets, targets_of in Ht. rewrite Hobjects in Ht.
    apply list_elem_of_fmap in Ht as (model & -> & _). done.
  - eapply Forall_impl; [by apply run_indexing_args|].
    intros e He document args ->.
    destruct (He document args eq_refl) as (t & Ht & ->).
    unfold targets, targets_of in Ht. rewrite Hobjects in Ht.
    apply list_elem_of_omap in Ht as (index & _ & Ht).
    unfold index_target in Ht.
    destruct (head (_doc_types index)); [|done].
    simpl in Ht. by injection Ht as <-.
Qed.

(** * Further properties *)

(** ** The name checks, failure by failure *)

Lemma validate_objects_first registered known model behind valid_models
    stdin :
  Forall (λ name, lower name ∈ registered) known →
  lower model ∉ registered →
  validate_objects registered (known ++ model :: behind) valid_models stdin =
  MkRun (Exit 1) [Stderr (UnknownObject model registered)] stdin.
Proof.
  intros Hknown Hmodel. revert valid_models.
  induction Hknown as [|name known Hname _ IH]; intros valid_models; simpl.
  - unfold py_in. by rewrite bool_decide_eq_false_2 by done.
  - unfold py_in. rewrite bool_decide_eq_true_2 by done. apply IH.
Qed.

(** X1. The object names are checked in the order given, and the check
    stops at the first one that is not registered: that name alone is
    reported, with the registered names, and the command exits with code
    1, whatever the names behind it and whatever the index names. *)
Theorem first_unknown_object_reported reg o stdin known model behind :
  objects o = known ++ model :: behind →
  Forall (λ name, lower name ∈ registered_models reg) known →
  lower model ∉ registered_models reg →
  _manage_document reg o stdin =
  MkRun (Exit 1) [Stderr (UnknownObject model (registered_models reg))] stdin.
Proof.
  intros Hobjects Hknown Hmodel.
  assert (preflight reg o stdin =
          MkRun (Exit 1)
            [Stderr (UnknownObject model (registered_models reg))] stdin)
    as Hrun.
  { unfold preflight. rewrite Hobjects.
    replace (truthy (known ++ model :: behind)) with true
      by by destruct known.
    by erewrite bind_Exit by by apply validate_objects_first. }
  rewrite (run_aborted reg o stdin 1) by by rewrite Hrun.
  by rewrite Hrun.
Qed.

(** X2. When the object names are registered and some index name is not,
    the command reports the index names that are not registered, each
    of them and each once, with the registered names, and exits with
    code 1. *)
Theorem unknown_indices_all_reported reg o stdin :
  ¬ unknown_object reg o →
  unknown_index reg o →
  ∃ unknown,
    _manage_document reg o stdin =
    MkRun (Exit 1) [Stderr (UnknownIndices unknown (known_name reg))] stdin ∧
    NoDup unknown ∧
    ∀ name, name ∈ unknown ↔ name ∈ indices o ∧ name ∉ known_name reg.
Proof.
  intros Hobjects Hindices.
  pose proof (preflight_unknown_index reg o stdin Hobjects Hindices) as Hrun.
  eexists. split_and!.
  - rewrite (run_aborted reg o stdin 1) by by rewrite Hrun.
    by rewrite Hrun.
  - apply NoDup_elements.
  - intros name. rewrite elem_of_elements, elem_of_difference.
    by rewrite !elem_of_list_to_set.
Qed.

(** ** Options that agree on what a phase reads *)

Section Agreement.

Context (o o' : Options).

Lemma check_indices_agree filter_ exclude idx s kwargs_list stdin :
  missing o && bool_decide (action o = INDEX) =
  missing o' && bool_decide (action o' = INDEX) →
  database o = database o' →
  count o = count o' →
  check_indices o filter_ exclude idx s kwargs_list stdin =
  check_indices o' filter_ exclude idx s kwargs_list stdin.
Proof.
  intros Hmissing Hdatabase Hcount. revert s kwargs_list stdin.
  induction idx as [|index idx IH]; intros s kwargs_list stdin; [done|].
  simpl. apply bind_cong.
  { unfold missing_exclude. by rewrite Hmissing. }
  intros exclude_ stdin1. apply bind_cong; [done|].
  intros document stdin2. rewrite Hdatabase, Hcount.
  apply bind_cong; [done|]. intros _ stdin3.
  destruct (get_queryset _ _ _ _); [done|]. apply IH.
Qed.

Context (Hverbosity : verbosity o = verbosity o')
        (Haction : action o = action o')
        (Hsize : batch_size o = batch_size o')
        (Htype : batch_type o = batch_type o')
        (Hparallel : parallel o = parallel o')
        (Hrefresh : refresh o = refresh o').

Lemma process_agree document kwargs stdin :
  process o document kwargs stdin = process o' document kwargs stdin.
Proof.
  unfold process, report.
  by rewrite Hverbosity, Haction, Hsize, Htype, Hparallel, Hrefresh.
Qed.

Lemma execute_objects_agree ts result stdin :
  execute_objects o ts result stdin = execute_objects o' ts result stdin.
Proof.
  revert result stdin.
  induction ts as [|[model kwargs] ts IH]; intros result stdin; [done|].
  simpl. apply bind_cong; [apply process_agree|]. intros lines stdin1.
  apply IH.
Qed.

Lemma execute_indices_agree ts result stdin :
  execute_indices o ts result stdin = execute_indices o' ts result stdin.
Proof.
  revert result stdin.
  induction ts as [|[index kwargs] ts IH]; intros result stdin; [done|].
  simpl. apply bind_cong; [done|]. intros document stdin1.
  apply bind_cong; [apply process_agree|]. intros lines stdin2.
  apply IH.
Qed.

Lemma execute_agree idx selected kwargs_list stdin :
  objects o = objects o' →
  execute o idx selected kwargs_list stdin =
  execute o' idx selected kwargs_list stdin.
Proof.
  intros Hobjects. unfold execute. rewrite Hobjects, Hverbosity.
  apply bind_cong; [|done].
  destruct (truthy (objects o'));
    [apply execute_objects_agree|apply execute_indices_agree].
Qed.

End Agreement.

(** ** X3: the names of [--indices] as a set *)

Lemma filter_indices_names known names names' stdin :
  (∀ name, name ∈ names ↔ name ∈ names') →
  filter_indices known names stdin = filter_indices known names' stdin.
Proof.
  intros Hnames. unfold filter_indices.
  assert (truthy names = truthy names') as ->.
  { destruct names as [|n l], names' as [|n' l']; try done.
    - destruct (not_elem_of_nil n'). apply Hnames. by left.
    - destruct (not_elem_of_nil n). apply Hnames. by left. }
  destruct (truthy names'); [|done].
  assert ((list_to_set names : gset string) = list_to_set names') as ->.
  { apply set_eq. intros name. by rewrite !elem_of_list_to_set. }
  destruct (bool_decide _); [|done].
  f_equal. f_equal. apply list_filter_iff. intros i. apply Hnames.
Qed.

(** X3. Registered index names given to [--indices] count as a set: two
    runs whose lists of index names hold the same registered names, in
    any order and with any repetition, are the same run, and so work on
    the indices in the order of the registry.  (With an unknown name the
    two runs report the same names; the order a Python set lists them in
    is not modelled, so that case is left out.) *)
Theorem index_names_as_a_set reg o names names' stdin :
  Forall (λ name, name ∈ known_name reg) names →
  (∀ name, name ∈ names ↔ name ∈ names') →
  _manage_document reg (with_indices names o) stdin =
  _manage_document reg (with_indices names' o) stdin.
Proof.
  intros _ Hnames. unfold _manage_document. apply bind_cong.
  - unfold preflight. simpl.
    apply bind_cong; [done|]. intros valid_models stdin1.
    apply bind_cong; [by apply filter_indices_names|]. intros idx stdin2.
    apply bind_cong; [done|]. intros _ stdin3.
    apply bind_cong; [|done].
    unfold check_fields. simpl.
    destruct (truthy (objects o)); [done|].
    apply bind_cong; [|done]. by apply check_indices_agree.
  - intros [idx [[selected s] kwargs_list]] stdin1.
    apply bind_cong; [done|]. intros _ stdin2.
    apply bind_cong; [done|]. intros _ stdin3.
    by apply execute_agree.
Qed.

(** ** X4: the flag [--missing] *)

(** X4. The flag [--missing] is read in one place only, the index branch
    of a run whose action is [index]: when object names are given, or when
    the action is [update] or [delete], the run with the flag is the run
    without it. *)
Theorem missing_only_for_index_action reg o flag flag' stdin :
  truthy (objects o) = true ∨ action o ≠ INDEX →
  _manage_document reg (with_missing flag o) stdin =
  _manage_document reg (with_missing flag' o) stdin.
Proof.
  intros Hbranch. unfold _manage_document. apply bind_cong.
  - unfold preflight. simpl.
    apply bind_cong; [done|]. intros valid_models stdin1.
    apply bind_cong; [done|]. intros idx stdin2.
    apply bind_cong; [done|]. intros _ stdin3.
    apply bind_cong; [|done].
    unfold check_fields. simpl.
    destruct (truthy (objects o)) eqn:Hobjects; [done|].
    destruct Hbranch as [?|Haction]; [done|].
    apply bind_cong; [|done]. apply check_indices_agree; [|done..].
    simpl. rewrite bool_decide_eq_false_2 by done.
    by rewrite !andb_false_r.
  - intros [idx [[selected s] kwargs_list]] stdin1.
    apply bind_cong; [done|]. intros _ stdin2.
    apply bind_cong; [done|]. intros _ stdin3.
    by apply execute_agree.
Qed.

(** ** X5, X6: the confirmation, on any stdin *)

Lemma run_raised reg o stdin asked rest e :
  registry_wf reg →
  ¬ preflight_fails reg o →
  gate o stdin = MkRun (Raise e) asked rest →
  _manage_document reg o stdin =
  MkRun (Raise e)
    ((targets reg o ≫= check_events o) ++ announcement o (targets reg o) ++
     asked)
    rest.
Proof.
  intros Hwf Hok Hgate. rewrite run_passes by done.
  erewrite bind_Raise by exact Hgate.
  unfold after. simpl. by rewrite <- !app_assoc.
Qed.

Lemma prompts_replicate n : prompts (replicate n Prompt) = n.
Proof.
  unfold prompts. induction n as [|n IH]; [done|].
  rewrite replicate_S, filter_cons_True by done. simpl. by rewrite IH.
Qed.

Lemma prompts_before_gate o ts asked :
  prompts ((ts ≫= check_events o) ++ announcement o ts ++ asked) =
  prompts asked.
Proof.
  rewrite !prompts_app.
  rewrite (prompts_outside (ts ≫= check_events o));
    [|apply (stage_differs Fields); [done|apply check_events_stage]].
  rewrite (prompts_outside (announcement o ts));
    [|apply (stage_differs Announcement); [done|apply announcement_stage]].
  done.
Qed.

Lemma prompts_of_whole_run o ts asked :
  prompts ((ts ≫= check_events o) ++ announcement o ts ++ asked ++
           (ts ≫= process_events o) ++ report_events o ts) =
  prompts asked.
Proof.
  rewrite !prompts_app.
  rewrite (prompts_outside (ts ≫= check_events o));
    [|apply (stage_differs Fields); [done|apply check_events_stage]].
  rewrite (prompts_outside (announcement o ts));
    [|apply (stage_differs Announcement); [done|apply announcement_stage]].
  rewrite (prompts_outside (ts ≫= process_events o));
    [|apply (stage_differs Execution); [done|apply process_events_stage]].
  rewrite (prompts_outside (report_events o ts));
    [|apply (stage_differs Execution); [done|apply report_events_stage]].
  simpl. lia.
Qed.

Lemma writes_before_execution o ts asked :
  Forall (λ e, stage e = Confirmation) asked →
  writes ((ts ≫= check_events o) ++ announcement o ts ++ asked) = [].
Proof.
  intros Hasked. apply writes_outside. rewrite !Forall_app. split_and!.
  - apply (stage_differs Fields); [done|apply check_events_stage].
  - apply (stage_differs Announcement); [done|apply announcement_stage].
  - by apply (stage_differs Confirmation).
Qed.

(** X5. Without [--force], when stdin ends before any line answers the
    confirmation, the command has prompted once per line and once more,
    ends on the [EOFError] of [input], and has written nothing. *)
Theorem unanswered_confirmation_raises reg o stdin :
  registry_wf reg →
  ¬ preflight_fails reg o →
  force o = false →
  Forall (λ q, lower q ∉ ["yes"; "y"; "no"; "n"]) stdin →
  outcome (_manage_document reg o stdin) = Raise EOFError ∧
  prompts (emitted (_manage_document reg o stdin)) = S (length stdin) ∧
  writes (emitted (_manage_document reg o stdin)) = [].
Proof.
  intros Hwf Hok Hforce Hstdin.
  assert (gate o stdin =
          MkRun (Raise EOFError) (replicate (S (length stdin)) Prompt) [])
    as Hgate.
  { unfold gate. rewrite Hforce. simpl. apply confirm_eof.
    eapply Forall_impl; [exact Hstdin|]. apply answer_other. }
  rewrite (run_raised reg o stdin _ _ _ Hwf Hok Hgate).
  cbn [outcome emitted unread]. split_and!; [done| |].
  - by rewrite prompts_before_gate, prompts_replicate.
  - apply writes_before_execution. by apply Forall_replicate.
Qed.

(** X6. Without [--force], the confirmation reads stdin up to the first
    line whose lower case is [yes], [y], [no] or [n], prompting once per
    line read, and leaves the lines behind it unread; the run then writes
    every target and ends normally on a yes, writes nothing and exits with
    code 1 on a no. *)
Theorem confirmation_reads_up_to_answer reg o junk p rest :
  registry_wf reg →
  ¬ preflight_fails reg o →
  force o = false →
  Forall (λ q, lower q ∉ ["yes"; "y"; "no"; "n"]) junk →
  lower p ∈ ["yes"; "y"; "no"; "n"] →
  let r := _manage_document reg o (junk ++ p :: rest) in
  prompts (emitted r) = S (length junk) ∧
  unread r = rest ∧
  outcome r = (if decide (lower p ∈ ["yes"; "y"]) then Ret tt else Exit 1) ∧
  writes (emitted r) =
  (if decide (lower p ∈ ["yes"; "y"]) then write_of o <$> targets reg o
   else []).
Proof.
  intros Hwf Hok Hforce Hjunk Hp r. subst r.
  assert (Forall (λ q, answer q = None) junk) as Hnone.
  { eapply Forall_impl; [exact Hjunk|]. apply answer_other. }
  assert (gate o = confirm) as Hgate by (unfold gate; by rewrite Hforce).
  destruct (decide (lower p ∈ ["yes"; "y"])) as [Hyes|Hno].
  - assert (gate o (junk ++ p :: rest) =
            MkRun (Ret tt)
              (replicate (S (length junk)) Prompt ++ [Stdout Blank]) rest)
      as Hasked by (rewrite Hgate; by apply confirm_yes, answer_yes).
    rewrite (run_executes reg o _ _ _ Hwf Hok Hasked).
    cbn [outcome emitted unread]. split_and!; [|done..|].
    + rewrite prompts_of_whole_run, prompts_app, prompts_replicate.
      replace (prompts [Stdout Blank]) with 0%nat by reflexivity. lia.
    + apply (writes_of_run o (targets reg o)
               (replicate (S (length junk)) Prompt ++ [Stdout Blank])).
      apply Forall_app. split; [by apply Forall_replicate|].
      by repeat constructor.
  - assert (lower p ∈ ["no"; "n"]) as Hp'.
    { clear -Hp Hno. rewrite !elem_of_cons in Hp. rewrite !elem_of_cons in Hno.
      rewrite !elem_of_cons. tauto. }
    assert (gate o (junk ++ p :: rest) =
            MkRun (Exit 1) (replicate (S (length junk)) Prompt) rest)
      as Hasked by (rewrite Hgate; by apply confirm_no, answer_no).
    rewrite (run_declined reg o _ _ _ _ Hwf Hok Hasked).
    cbn [outcome emitted unread]. split_and!; [|done..|].
    + by rewrite prompts_before_gate, prompts_replicate.
    + apply writes_before_execution. by apply Forall_replicate.
Qed.

(** ** X7: what is written to stdout *)

Lemma validate_objects_quiet registered objects valid_models :
  emits (λ e, is_stdout e = false)
    (validate_objects registered objects valid_models).
Proof.
  revert valid_models.
  induction objects as [|model objects IH]; intros valid_models; simpl;
    [auto with emits|].
  destruct (py_in _ _); auto with emits.
Qed.

Lemma check_objects_quiet filter_ exclude_ count selected s kwargs_list :
  emits (λ e, is_stdout e = false)
    (check_objects filter_ exclude_ count selected s kwargs_list).
Proof.
  revert s kwargs_list.
  induction selected as [|model selected IH]; intros s kwargs_list; simpl;
    [auto with emits|].
  apply emits_bind; [auto with emits|]. intros _.
  destruct (get_queryset _ _ _ _); auto with emits.
Qed.

Lemma check_indices_quiet o filter_ exclude idx s kwargs_list :
  emits (λ e, is_stdout e = false)
    (check_indices o filter_ exclude idx s kwargs_list).
Proof.
  revert s kwargs_list.
  induction idx as [|index idx IH]; intros s kwargs_list; simpl;
    [auto with emits|].
  apply emits_bind.
  { unfold missing_exclude. destruct (_ && _); auto with emits. }
  intros exclude_. apply emits_bind; [auto with emits|]. intros document.
  apply emits_bind; [auto with emits|]. intros _.
  destruct (get_queryset _ _ _ _); auto 6 with emits.
Qed.

Lemma preflight_quiet reg o :
  emits (λ e, is_stdout e = false) (preflight reg o).
Proof.
  unfold preflight.
  apply emits_bind.
  { destruct (truthy _); [apply validate_objects_quiet|auto with emits]. }
  intros valid_models. apply emits_bind.
  { unfold filter_indices. destruct (truthy _); [|auto with emits].
    destruct (bool_decide _); auto with emits. }
  intros idx. apply emits_bind.
  { unfold ensure_created. destruct (truthy _); auto 6 with emits. }
  intros _. apply emits_bind; [|auto with emits].
  unfold check_fields. destruct (truthy _).
  - apply emits_bind; [apply check_objects_quiet|].
    intros [??]. auto with emits.
  - apply emits_bind; [apply check_indices_quiet|].
    intros [??]. auto with emits.
Qed.

Lemma execute_objects_quiet o ts result :
  emits (λ e, is_stdout e = false) (execute_objects o ts result).
Proof.
  revert result. induction ts as [|[model kwargs] ts IH]; intros result; simpl;
    [auto with emits|].
  apply emits_bind; [unfold process; auto 6 with emits|]. intros lines.
  apply IH.
Qed.

Lemma execute_indices_quiet o ts result :
  emits (λ e, is_stdout e = false) (execute_indices o ts result).
Proof.
  revert result. induction ts as [|[index kwargs] ts IH]; intros result; simpl;
    [auto with emits|].
  apply emits_bind; [auto with emits|]. intros document.
  apply emits_bind; [unfold process; auto 6 with emits|]. intros lines.
  apply IH.
Qed.

(** X7. With [--force] and a verbosity of 0 the command itself writes
    nothing to stdout, whatever the run does: no summary, no blank line,
    no report.  (The document mappings are handed stdout with
    [verbose = 0]; what they print is theirs.) *)
Theorem forced_silent_run_writes_no_stdout reg o stdin :
  force o = true →
  verbosity o = 0 →
  Forall (λ e, is_stdout e = false) (emitted (_manage_document reg o stdin)).
Proof.
  intros Hforce Hverbosity. revert stdin.
  change (emits (λ e, is_stdout e = false) (_manage_document reg o)).
  unfold _manage_document.
  apply emits_bind; [apply preflight_quiet|].
  intros [idx [[selected s] kwargs_list]].
  unfold announce, gate, execute. rewrite Hforce, Hverbosity. simpl.
  apply emits_bind; [auto with emits|]. intros _.
  apply emits_bind; [auto with emits|]. intros _.
  apply emits_bind; [|auto with emits].
  destruct (truthy _);
    [apply execute_objects_quiet|apply execute_indices_quiet].
Qed.

(** ** X8, X9: the report of a target (lines 204-218) *)

Lemma tally_bump r error reasons :
  tally r (bump error reasons) =
  tally r reasons + (if decide (error = r) then 1 else 0).
Proof.
  induction reasons as [|[k n] reasons IH]; simpl.
  - destruct (decide (error = r)); lia.
  - destruct (decide (k = error)) as [->|Hk]; simpl.
    + destruct (decide (error = r)); lia.
    + rewrite IH. lia.
Qed.

Lemma bump_keys error reasons :
  (bump error reasons).*1 =
  if decide (error ∈ reasons.*1) then reasons.*1 else reasons.*1 ++ [error].
Proof.
  induction reasons as [|[k n] reasons IH]; [done|].
  cbn [bump]. rewrite fmap_cons. cbn [fst].
  destruct (decide (k = error)) as [->|Hk].
  - rewrite fmap_cons. cbn [fst]. rewrite decide_True; [done|by left].
  - rewrite fmap_cons, IH. cbn [fst].
    destruct (decide (error ∈ reasons.*1)) as [Hin|Hout].
    + rewrite decide_True; [done|by right].
    + rewrite decide_False; [done|].
      intros [?|?]%elem_of_cons; by subst.
Qed.

Lemma bump_NoDup error reasons :
  NoDup reasons.*1 → NoDup (bump error reasons).*1.
Proof.
  intros Hnodup. rewrite bump_keys.
  destruct (decide (error ∈ reasons.*1)) as [|Hout]; [done|].
  apply NoDup_app. split_and!; [done| |apply NoDup_singleton].
  intros k Hk ->%list_elem_of_singleton. done.
Qed.

Lemma bump_positive error reasons :
  Forall (λ kn, 0 < kn.2) reasons → Forall (λ kn, 0 < kn.2) (bump error reasons).
Proof.
  induction 1 as [|[k n] reasons Hn Hall IH]; simpl.
  - by repeat constructor.
  - simpl in Hn. destruct (decide (k = error)); constructor; simpl;
      first [lia|done].
Qed.

Lemma bump_sum error reasons :
  foldr Z.add 0 (bump error reasons).*2 = foldr Z.add 0 reasons.*2 + 1.
Proof.
  induction reasons as [|[k n] reasons IH]; [done|].
  cbn [bump]. destruct (decide (k = error)); rewrite !fmap_cons;
    cbn [foldr snd]; [lia|].
  rewrite IH. lia.
Qed.

Lemma tally_listed r n reasons :
  NoDup reasons.*1 → (r, n) ∈ reasons → tally r reasons = n.
Proof.
  induction reasons as [|[k m] reasons IH]; simpl;
    [by intros _ ?%not_elem_of_nil|].
  intros [Hk Hnodup]%NoDup_cons [[= <- <-]|Hin]%elem_of_cons.
  - rewrite decide_True by done.
    assert (tally r reasons = 0) as ->; [|lia].
    clear -Hk. induction reasons as [|[k m] reasons IH]; simpl; [done|].
    apply not_elem_of_cons in Hk as [Hne Hk]. simpl in Hne.
    rewrite decide_False by done. by rewrite IH.
  - rewrite decide_False, IH by (try done; intros ->; apply Hk;
      by apply (list_elem_of_fmap_2 fst _ (r, n))). lia.
Qed.

Lemma tally_unlisted r reasons :
  Forall (λ kn, 0 < kn.2) reasons →
  0 < tally r reasons →
  ∃ n, (r, n) ∈ reasons.
Proof.
  induction 1 as [|[k m] reasons Hm _ IH]; simpl; [lia|].
  destruct (decide (k = r)) as [->|Hk].
  - intros _. exists m. by left.
  - intros Htotal. destruct IH as [n Hn]; [lia|]. exists n. by right.
Qed.

(** The grouping of line 211-213, from any state of [reasons]. *)
Lemma grouping_invariant a errors reasons :
  let grouped :=
    foldl (λ reasons e, bump (reason a e) reasons) reasons errors in
  (NoDup reasons.*1 → NoDup grouped.*1) ∧
  (Forall (λ kn, 0 < kn.2) reasons → Forall (λ kn, 0 < kn.2) grouped) ∧
  (∀ r, tally r grouped = tally r reasons + reported_as a r errors) ∧
  foldr Z.add 0 grouped.*2 =
  foldr Z.add 0 reasons.*2 + Z.of_nat (length errors).
Proof.
  revert reasons. unfold reported_as.
  induction errors as [|e errors IH]; intros reasons; simpl.
  - split_and!; [done..| |lia]. intros r. rewrite ?filter_nil. simpl. lia.
  - destruct (IH (bump (reason a e) reasons))
      as (Hnodup & Hpositive & Htotal & Hsum).
    split_and!.
    + intros H. by apply Hnodup, bump_NoDup.
    + intros H. by apply Hpositive, bump_positive.
    + intros r. rewrite Htotal, tally_bump, filter_cons.
      destruct (decide (reason a e = r)); simpl length; lia.
    + rewrite Hsum, bump_sum. lia.
Qed.

(** X8. At verbosity 1 the report of a target groups its errors by
    reason: no reason is listed twice, a reason is listed exactly when
    some error has it, with the number of the errors that have it, and
    the totals add up to the number of errors. *)
Theorem report_groups_errors o document success errors :
  verbosity o = 1 →
  ∃ reasons,
    report o document success errors =
    [Grouped success (__name__ (django_model document)) (past (action o))
       (Z.of_nat (length errors)) reasons] ∧
    NoDup reasons.*1 ∧
    (∀ r n,
       (r, n) ∈ reasons ↔ n = reported_as (action o) r errors ∧ 0 < n) ∧
    foldr Z.add 0 reasons.*2 = Z.of_nat (length errors).
Proof.
  intros Hverbosity.
  destruct (grouping_invariant (action o) errors [])
    as (Hnodup & Hpositive & Htotal & Hsum).
  eexists. split_and!.
  - unfold report. rewrite Hverbosity. simpl. reflexivity.
  - apply Hnodup. constructor.
  - intros r n. split.
    + intros Hin.
      pose proof (tally_listed r n _ (Hnodup (NoDup_nil_2)) Hin) as Hn.
      rewrite Htotal in Hn. simpl in Hn. split; [lia|].
      pose proof (Hpositive (Forall_nil_2 _)) as Hall.
      rewrite Forall_forall in Hall. apply (Hall (r, n) Hin).
    + intros [-> Hpos].
      destruct (tally_unlisted r _ (Hpositive (Forall_nil_2 _)))
        as [n Hn]; [rewrite Htotal; simpl; lia|].
      pose proof (tally_listed r n _ (Hnodup (NoDup_nil_2)) Hn) as Hn'.
      rewrite Htotal in Hn'. simpl in Hn'.
      by replace (reported_as (action o) r errors) with n by lia.
  - rewrite Hsum. simpl. lia.
Qed.

Lemma reason_default a (e : Descriptor) :
  e !! value a = None ∨
  (∃ fields, e !! value a = Some fields ∧ fields !! "result" = None) →
  reason a e = "unknown error".
Proof.
  unfold reason. intros [->|(fields & -> & Hresult)]; simpl; [done|].
  by rewrite Hresult.
Qed.

(** X9. An error whose descriptor has no entry for the action, or whose
    entry has no [result], counts as an [unknown error]: at verbosity 1 a
    target whose errors are all of that kind is reported with the single
    reason [unknown error], for all of its errors. *)
Theorem errors_without_result_are_unknown o document success errors :
  verbosity o = 1 →
  errors ≠ [] →
  Forall (λ e : Descriptor,
            e !! value (action o) = None ∨
            ∃ fields,
              e !! value (action o) = Some fields ∧
              fields !! "result" = None) errors →
  report o document success errors =
  [Grouped success (__name__ (django_model document)) (past (action o))
     (Z.of_nat (length errors))
     [("unknown error", Z.of_nat (length errors))]].
Proof.
  intros Hverbosity Hsome Hall. unfold report. rewrite Hverbosity. simpl.
  do 2 f_equal.
  destruct errors as [|e errors]; [done|].
  apply Forall_cons in Hall as [He Hall]. simpl.
  rewrite (reason_default _ _ He).
  assert (∀ n, 0 < n →
            foldl (λ reasons e, bump (reason (action o) e) reasons)
              [("unknown error", n)] errors =
            [("unknown error", n + Z.of_nat (length errors))]) as Hfold.
  { clear He Hsome.
    induction Hall as [|e' errors He' _ IH]; intros n Hn.
    - simpl. by replace (n + Z.of_nat 0) with n by lia.
    - cbn [foldl bump]. rewrite (reason_default _ _ He').
      rewrite decide_True by done. rewrite IH by lia.
      by replace (n + 1 + Z.of_nat (length errors))
        with (n + Z.of_nat (length (e' :: errors)))
        by (simpl length; lia). }
  rewrite Hfold by lia.
  by replace (1 + Z.of_nat (length errors))
    with (Z.of_nat (length (e :: errors))) by (simpl length; lia).
Qed.

(** ** X11: object names and lower case *)

Lemma lower_ascii_idempotent c : lower_ascii (lower_ascii c) = lower_ascii c.
Proof. by destruct c as [[] [] [] [] [] [] [] []]. Qed.

Lemma lower_idempotent s : lower (lower s) = lower s.
Proof.
  induction s as [|c s IH]; [done|].
  simpl. by rewrite lower_ascii_idempotent, IH.
Qed.

Lemma select_os_models_lower reg valid_models idx :
  Forall (λ name, lower name ≠ name) valid_models →
  select_os_models reg valid_models idx = [].
Proof.
  intros Hnames. unfold select_os_models.
  replace (filter (λ m, lower (__name__ m) ∈ valid_models) (get_models reg))
    with (@nil Model).
  { induction (concat _) as [|document documents IH]; [done|].
    rewrite filter_cons_False; [done|].
    by intros [?%not_elem_of_nil _]. }
  induction (get_models reg) as [|m models IH]; [done|].
  rewrite filter_cons_False; [done|].
  intros Hin. rewrite Forall_forall in Hnames.
  apply (Hnames _ Hin), lower_idempotent.
Qed.

(** The writes of a run are those of all its targets, or none. *)
Lemma run_writes reg o stdin :
  registry_wf reg →
  writes (emitted (_manage_document reg o stdin)) = [] ∨
  writes (emitted (_manage_document reg o stdin)) =
  write_of o <$> targets reg o.
Proof.
  intros Hwf.
  destruct (decide (preflight_fails reg o)) as [Hfails|Hok].
  { left. rewrite (run_aborted reg o stdin 1) by by apply preflight_aborts.
    cbn [emitted]. apply writes_outside.
    eapply Forall_impl; [apply preflight_stage|].
    by intros e [->|[->| ->]]. }
  pose proof (gate_stage o stdin) as Hstage.
  destruct (gate o stdin) as [[[]|code|e] asked rest] eqn:Hgate;
    cbn [emitted] in Hstage.
  - right. rewrite (run_executes reg o stdin asked rest) by done.
    by apply writes_of_run.
  - left. rewrite (run_declined reg o stdin asked rest code) by done.
    by apply writes_before_execution.
  - left. rewrite (run_raised reg o stdin asked rest e) by done.
    by apply writes_before_execution.
Qed.

(** X11. An object name selects the documents of a model only when it is
    the model's name in lower case: a run whose object names all hold an
    upper-case letter has no target and writes nothing, even when the
    names pass the check of the object names. *)
Theorem object_names_select_in_lower_case_only reg o stdin :
  registry_wf reg →
  objects o ≠ [] →
  Forall (λ name, lower name ≠ name) (objects o) →
  targets reg o = [] ∧
  writes (emitted (_manage_document reg o stdin)) = [].
Proof.
  intros Hwf Hobjects Hnames.
  assert (targets reg o = []) as Htargets.
  { unfold targets, targets_of.
    destruct (objects o) as [|name names] eqn:Hnamed; [done|].
    cbn [truthy]. by rewrite select_os_models_lower. }
  split; [done|].
  destruct (run_writes reg o stdin Hwf) as [->| ->]; [done|].
  by rewrite Htargets.
Qed.

(** ** X15, X16: the querysets of a run *)

Lemma querysets_app evs evs' :
  querysets (evs ++ evs') = querysets evs ++ querysets evs'.
Proof. apply filter_app. Qed.

Lemma querysets_outside evs :
  Forall (λ e, stage e ≠ Fields) evs → querysets evs = [].
Proof.
  induction 1 as [|e evs He _ IH]; [done|].
  unfold querysets in *. rewrite filter_cons_False; [done|].
  destruct e as [m|m| | | | |]; simpl in *; auto.
Qed.

Lemma indexings_app evs evs' :
  indexings (evs ++ evs') = indexings evs ++ indexings evs'.
Proof. apply filter_app. Qed.

Lemma indexings_outside evs :
  Forall (λ e, stage e ≠ Execution) evs → indexings evs = [].
Proof.
  induction 1 as [|e evs He _ IH]; [done|].
  unfold indexings in *. rewrite filter_cons_False; [done|].
  destruct e as [m|m| | | | |]; simpl in *; auto.
Qed.

(** The queryset the field check builds for a target. *)
Lemma querysets_checks o ts :
  querysets (ts ≫= check_events o) =
  (λ t, GetQueryset (target_document t) (kw_filter_ (target_kwargs t))
          (kw_exclude (target_kwargs t)) (kw_count (target_kwargs t)))
  <$> ts.
Proof.
  induction ts as [|t ts IH]; [done|].
  rewrite bind_cons, querysets_app, IH, fmap_cons. f_equal.
  unfold check_events.
  by destruct (target_index t); [destruct (_ && _)|].
Qed.

Lemma indexings_process o ts :
  indexings (ts ≫= process_events o) =
  (λ t, GetIndexingQueryset (target_document t) (indexing_args o t)) <$> ts.
Proof.
  induction ts as [|t ts IH]; [done|].
  by rewrite bind_cons, indexings_app, IH.
Qed.

Lemma later_stage o idx selected kwargs_list :
  emits (λ e, stage e = Confirmation ∨ stage e = Execution)
    (gate o ;; execute o idx selected kwargs_list).
Proof.
  apply emits_bind.
  - eapply emits_mono; [|apply gate_stage]. auto.
  - intros _. eapply emits_mono; [|apply execute_stage]. auto.
Qed.

Lemma run_querysets reg o stdin :
  registry_wf reg →
  ¬ preflight_fails reg o →
  querysets (emitted (_manage_document reg o stdin)) =
  (λ t, GetQueryset (target_document t) (kw_filter_ (target_kwargs t))
          (kw_exclude (target_kwargs t)) (kw_count (target_kwargs t)))
  <$> targets reg o.
Proof.
  intros Hwf Hok. rewrite run_passes by done.
  unfold after. cbn [emitted].
  rewrite !querysets_app, querysets_checks.
  rewrite (querysets_outside (announcement _ _));
    [|apply (stage_differs Announcement); [done|apply announcement_stage]].
  rewrite (querysets_outside (emitted _)); [by rewrite !app_nil_r|].
  eapply Forall_impl; [apply later_stage|].
  by intros e [-> | ->].
Qed.

(** X15. In a run that executes, every target is handed to
    [get_indexing_queryset] with the filter, the exclude and the count its
    queryset was built and counted with for the summary, and the targets
    are written in the order they were counted in. *)
Theorem targets_written_as_counted reg o stdin :
  registry_wf reg →
  ¬ preflight_fails reg o →
  confirmed o stdin →
  querysets (emitted (_manage_document reg o stdin)) =
  (λ t, GetQueryset (target_document t) (kw_filter_ (target_kwargs t))
          (kw_exclude (target_kwargs t)) (kw_count (target_kwargs t)))
  <$> targets reg o ∧
  indexings (emitted (_manage_document reg o stdin)) =
  (λ t, GetIndexingQueryset (target_document t)
          {| ia_verbose := verbosity o; ia_action := action o;
             ia_batch_size := batch_size o; ia_batch_type := batch_type o;
             ia_kwargs := target_kwargs t |})
  <$> targets reg o.
Proof.
  intros Hwf Hok Hconfirmed. split; [by apply run_querysets|].
  destruct (gate_confirmed o stdin Hconfirmed)
    as (asked & rest & Hgate & Hasked).
  rewrite (run_executes reg o stdin asked rest) by done. cbn [emitted].
  rewrite !indexings_app, indexings_process.
  rewrite (indexings_outside (_ ≫= check_events o));
    [|apply (stage_differs Fields); [done|apply check_events_stage]].
  rewrite (indexings_outside (announcement _ _));
    [|apply (stage_differs Announcement); [done|apply announcement_stage]].
  rewrite (indexings_outside asked);
    [|by apply (stage_differs Confirmation)].
  unfold report_events. destruct (bool_decide _); simpl; by rewrite app_nil_r.
Qed.

(** X16. In the index branch, with the action [index] and [--missing], the
    queryset of every working index is built with an exclude that holds
    the ids stored in that index under [pk__in], joined by [&] to the
    excludes of the command line when there are some. *)
Theorem missing_excludes_stored_ids reg o stdin :
  registry_wf reg →
  ¬ preflight_fails reg o →
  truthy (objects o) = false →
  missing o = true →
  action o = INDEX →
  Forall2
    (λ e index,
       ∃ document,
         head (_doc_types index) = Some document ∧
         e = GetQueryset document (conjunction (filters o))
               (Some (let stored :=
                        QLeaf "pk__in" (VList (VStr <$> stored_ids index)) in
                      match conjunction (excludes o) with
                      | Some exclude => QAnd exclude stored
                      | None => stored
                      end))
               (count o))
    (querysets (emitted (_manage_document reg o stdin)))
    (resolved_indices reg o).
Proof.
  intros Hwf Hok Hobjects Hmissing Haction.
  rewrite run_querysets by done.
  unfold targets, targets_of. rewrite Hobjects.
  pose proof (resolved_wf reg o Hwf) as Hdocs.
  induction Hdocs as [|index idx Hdoc _ IH]; [constructor|].
  destruct (_doc_types index) as [|document others] eqn:Htypes; [done|].
  cbn [omap list_omap]. unfold index_target at 1. rewrite Htypes.
  cbn [head mbind option_bind]. rewrite fmap_cons. constructor; [|done].
  exists document. split; [by rewrite Htypes|]. cbn.
  unfold exclude_of. by rewrite Hmissing, Haction.
Qed.

(** ** X12, X13, X14: the listing of the indices (lines 50-62) *)

Lemma penultimate_split_without sep s :
  occurrences sep s = 0%nat → penultimate (split sep s) = None.
Proof. intros Hs. by rewrite split_without. Qed.

Lemma penultimate_split_with sep s :
  occurrences sep s ≠ 0%nat → is_Some (penultimate (split sep s)).
Proof.
  intros Hs. pose proof (split_length sep s) as Hlen.
  rewrite <- length_reverse in Hlen. unfold penultimate.
  destruct (reverse (split sep s)) as [|x [|y l]]; simpl in Hlen;
    [lia..|by eexists].
Qed.

Lemma lines_under_append app module line result :
  lines_under app (append_line module line result) =
  lines_under app result ++ (if decide (module = app) then [line] else []).
Proof.
  induction result as [|[k lines] result IH]; simpl.
  - by destruct (decide (module = app)).
  - destruct (decide (k = module)) as [->|Hk]; simpl.
    + destruct (decide (module = app)); [done|by rewrite app_nil_r].
    + destruct (decide (k = app)) as [->|Hk']; [|done].
      rewrite decide_False by done. by rewrite app_nil_r.
Qed.

Lemma append_line_keys module line result :
  (append_line module line result).*1 =
  if decide (module ∈ result.*1) then result.*1 else result.*1 ++ [module].
Proof.
  induction result as [|[k lines] result IH]; [done|].
  cbn [append_line]. rewrite fmap_cons. cbn [fst].
  destruct (decide (k = module)) as [->|Hk].
  - rewrite fmap_cons. cbn [fst]. rewrite decide_True; [done|by left].
  - rewrite fmap_cons, IH. cbn [fst].
    destruct (decide (module ∈ result.*1)) as [Hin|Hout].
    + rewrite decide_True; [done|by right].
    + rewrite decide_False; [done|].
      intros [?|?]%elem_of_cons; by subst.
Qed.

Lemma append_line_NoDup module line result :
  NoDup result.*1 → NoDup (append_line module line result).*1.
Proof.
  intros Hnodup. rewrite append_line_keys.
  destruct (decide (module ∈ result.*1)) as [|Hout]; [done|].
  apply NoDup_app. split_and!; [done| |apply NoDup_singleton].
  intros k Hk ->%list_elem_of_singleton. done.
Qed.

Lemma append_line_filled module line result :
  Forall (λ group, group.2 ≠ []) result →
  Forall (λ group, group.2 ≠ []) (append_line module line result).
Proof.
  induction 1 as [|[k lines] result Hlines Hall IH]; simpl.
  - by repeat constructor.
  - destruct (decide (k = module)); constructor; simpl; try done.
    by destruct lines.
Qed.

Lemma lines_under_listed app lines result :
  NoDup result.*1 → (app, lines) ∈ result → lines_under app result = lines.
Proof.
  induction result as [|[k ls] result IH]; simpl;
    [by intros _ ?%not_elem_of_nil|].
  intros [Hk Hnodup]%NoDup_cons [[= <- <-]|Hin]%elem_of_cons.
  - by rewrite decide_True.
  - rewrite decide_False; [by apply IH|].
    intros ->. apply Hk. by apply (list_elem_of_fmap_2 fst _ (app, lines)).
Qed.

Lemma lines_under_unlisted app result :
  lines_under app result ≠ [] → (app, lines_under app result) ∈ result.
Proof.
  induction result as [|[k ls] result IH]; simpl; [done|].
  destruct (decide (k = app)) as [->|Hk]; [by left|].
  intros Hlines. right. by apply IH.
Qed.

Section ListIndexProperties.

Context (module_of : Document → string) (count_of : Index → Z).

(** The loop of lines 54-59, when no index raises. *)
Lemma collect_groups indices result :
  Forall (λ i, is_Some (app_of module_of i)) indices →
  let rows := collect module_of count_of indices result in
  rows.1 =
  (λ i, CountDocuments (_name i)) <$> filter (λ i, exists_ i = true) indices ∧
  ∃ groups,
    rows.2 = inr groups ∧
    (NoDup result.*1 → NoDup groups.*1) ∧
    (Forall (λ group, group.2 ≠ []) result →
     Forall (λ group, group.2 ≠ []) groups) ∧
    ∀ app,
      lines_under app groups =
      lines_under app result ++
      (line_of count_of <$>
         filter (λ i, app_of module_of i = Some app) indices).
Proof.
  intros Hall. revert result.
  induction Hall as [|index indices [module Hmodule] _ IH]; intros result.
  - simpl. split; [done|]. exists result. split_and!; try done.
    intros app. by rewrite app_nil_r.
  - cbn [collect]. rewrite Hmodule.
    destruct (IH (append_line module (line_of count_of index) result))
      as (Hcounts & groups & Hgroups & Hnodup & Hfilled & Hlines).
    cbn [fst snd]. split.
    + rewrite Hcounts, filter_cons.
      destruct (exists_ index); [by rewrite decide_True|].
      by rewrite decide_False.
    + exists groups. split_and!; [done| | |].
      * intros H. by apply Hnodup, append_line_NoDup.
      * intros H. by apply Hfilled, append_line_filled.
      * intros app. rewrite Hlines, lines_under_append, filter_cons, Hmodule.
        rewrite <- app_assoc. f_equal.
        destruct (decide (module = app)) as [->|Hne].
        -- by rewrite decide_True.
        -- rewrite decide_False; [done|]. by intros [= ?].
Qed.

(** The loop of lines 54-59, when some index raises. *)
Lemma collect_raises indices result :
  Exists (λ i, app_of module_of i = None) indices →
  let rows := collect module_of count_of indices result in
  rows.2 = inl IndexError ∧
  Forall (λ e, is_list_write e = false) rows.1.
Proof.
  intros Hex. revert result.
  induction indices as [|index indices IH]; intros result;
    [by apply Exists_nil in Hex|].
  cbn [collect]. destruct (app_of module_of index) as [module|] eqn:Hmodule.
  - apply Exists_cons in Hex as [?|Hex]; [congruence|].
    destruct (IH Hex (append_line module (line_of count_of index) result))
      as [Hraised Hcounts].
    cbn [fst snd]. split; [done|].
    apply Forall_app. split; [|done].
    destruct (exists_ index); by repeat constructor.
  - by split.
Qed.

(** X12. The listing asks for the number of documents of the indices
    that exist, and of no other: every call to [count] is for a registered
    index that is created. *)
Theorem listing_counts_created_indices_only reg :
  Forall (λ e,
            match e with
            | CountDocuments name =>
                ∃ index,
                  index ∈ get_indices reg ∧ _name index = name ∧
                  exists_ index = true
            | _ => True
            end)
    (__list_index module_of count_of reg).1.
Proof.
  unfold __list_index.
  assert (∀ indices result,
            Forall (λ e,
                      match e with
                      | CountDocuments name =>
                          ∃ index,
                            index ∈ indices ∧ _name index = name ∧
                            exists_ index = true
                      | _ => True
                      end)
              (collect module_of count_of indices result).1) as Hcollect.
  { intros idx. induction idx as [|index idx IH]; intros result;
      [constructor|].
    cbn [collect]. destruct (app_of module_of index) as [module|];
      [|constructor].
    cbn [fst]. apply Forall_app. split.
    - destruct (exists_ index) eqn:Hexists; repeat constructor.
      exists index. split_and!; [by left|done..].
    - eapply Forall_impl; [apply IH|].
      intros [name| |]; [|done..].
      intros (i & Hi & Hname & Hexists). exists i.
      split_and!; [by right|done..]. }
  destruct (collect _ _ _ _).2 eqn:Hrows; cbn [fst]; [apply Hcollect|].
  apply Forall_app. split; [apply Hcollect|].
  apply Forall_bind, Forall_forall. intros group _.
  by repeat constructor.
Qed.

(** X13. When every index has a document class declared in a module of a
    package (a module name with a dot), the listing asks for the counts
    of the created indices in the order of the registry, and then writes
    one label and one block of lines per application: no application
    twice, and under an application the lines of the indices whose first
    document class is declared in it, in the order of the registry. *)
Theorem listing_groups_by_application reg :
  Forall (λ i, ∃ document,
            head (_doc_types i) = Some document ∧
            occurrences "." (module_of document) ≠ 0%nat)
    (get_indices reg) →
  ∃ groups,
    __list_index module_of count_of reg =
    (((λ i, CountDocuments (_name i)) <$>
        filter (λ i, exists_ i = true) (get_indices reg)) ++
     (groups ≫= λ group, [WriteLabel group.1; WriteLines group.2]),
     None) ∧
    NoDup groups.*1 ∧
    ∀ app lines,
      (app, lines) ∈ groups ↔
      lines ≠ [] ∧
      lines =
      line_of count_of <$>
        filter (λ i, app_of module_of i = Some app) (get_indices reg).
Proof.
  intros Hall.
  assert (Forall (λ i, is_Some (app_of module_of i)) (get_indices reg))
    as Hsome.
  { eapply Forall_impl; [exact Hall|]. simpl.
    intros i (document & Hdocument & Hdots). unfold app_of.
    rewrite Hdocument. simpl. by apply penultimate_split_with. }
  destruct (collect_groups (get_indices reg) [] Hsome)
    as (Hcounts & groups & Hgroups & Hnodup & Hfilled & Hlines).
  exists groups. unfold __list_index. rewrite Hgroups, Hcounts.
  split_and!; [done|apply Hnodup; constructor|].
  intros app lines. pose proof (Hlines app) as Happ. simpl in Happ.
  rewrite <- Happ. split.
  - intros Hin. rewrite (lines_under_listed app lines) by
      (try done; apply Hnodup; constructor).
    split; [|done].
    pose proof (Hfilled (Forall_nil_2 _)) as Hne.
    rewrite Forall_forall in Hne. apply (Hne _ Hin).
  - intros [Hne ->]. by apply lines_under_unlisted.
Qed.

(** X14. When some index has no document class, or a first document
    class declared in a module without a package (a module name without
    a dot), the listing ends on an [IndexError] and writes nothing, also
    for the indices before that one. *)
Theorem listing_raises_without_a_package reg :
  Exists (λ i, head (_doc_types i) = None ∨
               ∃ document,
                 head (_doc_types i) = Some document ∧
                 occurrences "." (module_of document) = 0%nat)
    (get_indices reg) →
  (__list_index module_of count_of reg).2 = Some IndexError ∧
  Forall (λ e, is_list_write e = false)
    (__list_index module_of count_of reg).1.
Proof.
  intros Hex.
  assert (Exists (λ i, app_of module_of i = None) (get_indices reg)) as Hnone.
  { eapply Exists_impl; [exact Hex|]. simpl.
    intros i [Hhead|(document & Hhead & Hdots)]; unfold app_of;
      rewrite Hhead; simpl; [done|].
    by apply penultimate_split_without. }
  destruct (collect_raises (get_indices reg) [] Hnone) as [Hraised Hcounts].
  unfold __list_index. by rewrite Hraised.
Qed.

End ListIndexProperties.

(** ** X10: the exit code *)

Lemma exits_one_ret {A} (a : A) : exits_one (mret a).
Proof. by intros stdin code. Qed.

Lemma exits_one_emit e : exits_one (emit e).
Proof. by intros stdin code. Qed.

Lemma exits_one_exit {A} : exits_one (exit (A:=A) 1).
Proof. intros stdin code. by intros [= <-]. Qed.

Lemma exits_one_raise {A} e : exits_one (raise (A:=A) e).
Proof. by intros stdin code. Qed.

Lemma exits_one_first {A} (l : list A) : exits_one (first l).
Proof. destruct l; [apply exits_one_raise|apply exits_one_ret]. Qed.

Lemma exits_one_bind {A B} (m : M A) (f : A → M B) :
  exits_one m → (∀ a, exits_one (f a)) → exits_one (m ≫= f).
Proof.
  intros Hm Hf stdin code. unfold mbind, M_bind.
  destruct (outcome (m stdin)) as [a|code'|e] eqn:Houtcome; simpl.
  - apply Hf.
  - intros [= <-]. by apply (Hm stdin).
  - done.
Qed.

Create HintDb exits.
#[local] Hint Resolve exits_one_ret exits_one_emit exits_one_exit
  exits_one_raise exits_one_first exits_one_bind : exits.
#[local] Hint Extern 1 (exits_one (stderr_write _)) => apply exits_one_emit
  : exits.
#[local] Hint Extern 1 (exits_one (stdout_write _)) => apply exits_one_emit
  : exits.

Lemma validate_objects_exits registered objects valid_models :
  exits_one (validate_objects registered objects valid_models).
Proof.
  revert valid_models.
  induction objects as [|model objects IH]; intros valid_models; simpl;
    [auto with exits|].
  destruct (py_in _ _); auto with exits.
Qed.

Lemma check_objects_exits filter_ exclude_ count selected s kwargs_list :
  exits_one (check_objects filter_ exclude_ count selected s kwargs_list).
Proof.
  revert s kwargs_list.
  induction selected as [|model selected IH]; intros s kwargs_list; simpl;
    [auto with exits|].
  apply exits_one_bind; [auto with exits|]. intros _.
  destruct (get_queryset _ _ _ _); auto with exits.
Qed.

Lemma check_indices_exits o filter_ exclude idx s kwargs_list :
  exits_one (check_indices o filter_ exclude idx s kwargs_list).
Proof.
  revert s kwargs_list.
  induction idx as [|index idx IH]; intros s kwargs_list; simpl;
    [auto with exits|].
  apply exits_one_bind.
  { unfold missing_exclude. destruct (_ && _); auto with exits. }
  intros exclude_. apply exits_one_bind; [auto with exits|]. intros document.
  apply exits_one_bind; [auto with exits|]. intros _.
  destruct (get_queryset _ _ _ _); auto 6 with exits.
Qed.

Lemma preflight_exits reg o : exits_one (preflight reg o).
Proof.
  unfold preflight.
  apply exits_one_bind.
  { destruct (truthy _); [apply validate_objects_exits|auto with exits]. }
  intros valid_models. apply exits_one_bind.
  { unfold filter_indices. destruct (truthy _); [|auto with exits].
    destruct (bool_decide _); auto with exits. }
  intros idx. apply exits_one_bind.
  { unfold ensure_created. destruct (truthy _); auto 6 with exits. }
  intros _. apply exits_one_bind; [|auto with exits].
  unfold check_fields. destruct (truthy _).
  - apply exits_one_bind; [apply check_objects_exits|].
    intros [??]. auto with exits.
  - apply exits_one_bind; [apply check_indices_exits|].
    intros [??]. auto with exits.
Qed.

Lemma confirm_exits : exits_one confirm.
Proof.
  intros stdin. induction stdin as [|p rest IH]; intros code; simpl;
    [done|].
  destruct (py_in _ _); [done|].
  destruct (py_in _ _); [by intros [= <-]|]. apply IH.
Qed.

Lemma execute_objects_exits o ts result :
  exits_one (execute_objects o ts result).
Proof.
  revert result. induction ts as [|[model kwargs] ts IH]; intros result; simpl;
    [auto with exits|].
  apply exits_one_bind; [unfold process; auto 6 with exits|]. intros lines.
  apply IH.
Qed.

Lemma execute_indices_exits o ts result :
  exits_one (execute_indices o ts result).
Proof.
  revert result. induction ts as [|[index kwargs] ts IH]; intros result; simpl;
    [auto with exits|].
  apply exits_one_bind; [auto with exits|]. intros document.
  apply exits_one_bind; [unfold process; auto 6 with exits|]. intros lines.
  apply IH.
Qed.

Lemma run_exits reg o : exits_one (_manage_document reg o).
Proof.
  unfold _manage_document.
  apply exits_one_bind; [apply preflight_exits|].
  intros [idx [[selected s] kwargs_list]].
  apply exits_one_bind.
  { unfold announce. destruct (_ || _); auto with exits. }
  intros _. apply exits_one_bind.
  { unfold gate. destruct (negb _); [apply confirm_exits|auto with exits]. }
  intros _. unfold execute. apply exits_one_bind.
  - destruct (truthy _);
      [apply execute_objects_exits|apply execute_indices_exits].
  - intros result. destruct (bool_decide _); auto with exits.
Qed.

(** X10. The only exit code the filter parser and the document command
    ever set is 1: a run ends normally, on an uncaught exception, or on
    [exit(1)]. *)
Theorem exit_code_is_one parse given reg o stdin :
  match outcome (wrap parse given stdin) with
  | Exit code => code = 1
  | _ => True
  end ∧
  match outcome (_manage_document reg o stdin) with
  | Exit code => code = 1
  | _ => True
  end.
Proof.
  split.
  - unfold wrap.
    destruct (split "=" given) as [|lookup [|v [|piece pieces]]]; try done.
    by destruct (parse v).
  - pose proof (run_exits reg o stdin) as Hexits.
    destruct (outcome (_manage_document reg o stdin)); [done| |done].
    by apply Hexits.
Qed.

(** ** X17: a failed pre-flight and the operator *)

Lemma preflight_untouched reg o stdin :
  registry_wf reg →
  preflight_fails reg o →
  unread (preflight reg o stdin) = stdin.
Proof.
  intros Hwf Hfails.
  destruct (decide (unknown_object reg o)) as [Hobjects|Hobjects].
  { destruct (preflight_unknown_object reg o stdin Hobjects) as [model ->].
    done. }
  destruct (decide (unknown_index reg o)) as [Hindices|Hindices].
  { by rewrite preflight_unknown_index. }
  destruct (decide (not_created reg o)) as [Hcreated|Hcreated].
  { by rewrite preflight_not_created. }
  assert (lookup_rejected reg o) as Hlookups.
  { by destruct Hfails as [?|[?|[?|?]]]. }
  destruct (first_rejected _ Hlookups)
    as (before & t & behind & e & Hts & Hbefore & Ht).
  by rewrite (preflight_rejects reg o stdin before t behind e).
Qed.

(** X17. A run that fails the pre-flight validation asks the operator
    nothing and tells stdout nothing: it never prompts, leaves stdin
    unread, and writes its messages to stderr only. *)
Theorem failed_preflight_asks_nothing reg o stdin :
  registry_wf reg →
  preflight_fails reg o →
  prompts (emitted (_manage_document reg o stdin)) = 0%nat ∧
  unread (_manage_document reg o stdin) = stdin ∧
  Forall (λ e, is_stdout e = false) (emitted (_manage_document reg o stdin)).
Proof.
  intros Hwf Hfails.
  rewrite (run_aborted reg o stdin 1) by by apply preflight_aborts.
  cbn [emitted unread]. split_and!.
  - apply prompts_outside.
    eapply Forall_impl; [apply preflight_stage|].
    by intros e [->|[->| ->]].
  - by apply preflight_untouched.
  - apply preflight_quiet.
Qed.

(** * The command on the sample registry *)

Lemma sample_wf created created' :
  registry_wf (Sample.registry created created').
Proof. by repeat constructor. Qed.

(** C1, on a run: a filter on [status], which articles have and books
    have not.  The first target passes the field check, the second one is
    rejected, and nothing is written. *)
Lemma preflight_failure_writes_nothing_witness :
  let reg := Sample.registry true true in
  let o := Sample.options INDEX [] [] true false
             [("status", VStr "published")] [] None in
  preflight_fails reg o ∧
  outcome (_manage_document reg o []) = Exit 1 ∧
  writes (emitted (_manage_document reg o [])) = [].
Proof.
  intros reg o.
  assert (preflight_fails reg o) as Hfails.
  { apply (bool_decide_unpack _). vm_compute. exact I. }
  split; [exact Hfails|].
  apply preflight_failure_writes_nothing; [apply sample_wf|exact Hfails].
Defined.

(** C2 fails on the code.  With [--missing] and the action [index], the
    index branch excludes the ids the index stores; the objects branch,
    under the same comment, builds the queryset without that predicate. *)
Lemma missing_ignored_for_objects :
  let reg := Sample.registry true true in
  querysets (emitted (_manage_document reg
    (Sample.options INDEX ["articles"] [] true true [] [] None) [])) =
  [GetQueryset Sample.ArticleDocument None
     (Some (QLeaf "pk__in" (VList [VStr "1"]))) None] ∧
  querysets (emitted (_manage_document reg
    (Sample.options INDEX [] ["article"] true true [] [] None) [])) =
  [GetQueryset Sample.ArticleDocument None None None].
Proof. split; reflexivity. Qed.

(** C3, as stated, fails: a filter string with two ['='] is refused,
    where the claim has it cut at the first one. *)
Lemma db_filter_two_separators :
  occurrences "=" "a=b=c" = 2%nat ∧
  wrap (λ v, Some (VStr v)) "a=b=c" [] =
  MkRun (Exit 1) [Stderr Usage; Stderr (InvalidFilter "a=b=c")] [].
Proof. split; reflexivity. Qed.

(** C4 fails on the code.  The object name [Article] passes the name
    check and then selects nothing: the command ends normally with an
    empty summary and no write, where [article] has the article documents
    written. *)
Lemma capitalised_object_selects_nothing :
  let reg := Sample.registry true true in
  _manage_document reg
    (Sample.options INDEX [] ["Article"] true false [] [] None) [] =
  MkRun (Ret tt) [Stdout (Summary "indexed" []); Stdout (Report [])] [] ∧
  length (writes (emitted (_manage_document reg
    (Sample.options INDEX [] ["article"] true false [] [] None) []))) = 1%nat.
Proof. split; reflexivity. Qed.

(** C5, as stated, fails: with a lookup both models lack, both targets
    are rejected by the store and the error of the first one only is
    reported. *)
Lemma second_rejection_unreported :
  let reg := Sample.registry true true in
  let o := Sample.options INDEX [] [] true false [("bogus", VInt 1)] [] None in
  targets reg o =
  [Sample.by_index o (Sample.articles true) Sample.ArticleDocument;
   Sample.by_index o (Sample.books true) Sample.BookDocument] ∧
  Forall rejected (targets reg o) ∧
  stderr_of (emitted (_manage_document reg o [])) =
  [FilterError "Article" (Some "articles")
     "Cannot resolve keyword into field."].
Proof.
  intros reg o. split_and!; [reflexivity| |reflexivity].
  repeat constructor; by eexists.
Qed.

(** C5, on a run: the articles pass the field check, the books are
    rejected. *)
Lemma first_rejection_aborts_witness :
  let reg := Sample.registry true true in
  let o := Sample.options INDEX [] [] true false
             [("status", VStr "published")] [] None in
  let article :=
    Sample.by_index o (Sample.articles true) Sample.ArticleDocument in
  let book := Sample.by_index o (Sample.books true) Sample.BookDocument in
  _manage_document reg o [] =
  MkRun (Exit 1)
    ((([article] ++ [book]) ≫= check_events o) ++
     [Stderr (FilterError "Book" (Some "books")
                "Cannot resolve keyword into field.")])
    [] ∧
  stderr_of (emitted (_manage_document reg o [])) =
  [FilterError "Book" (Some "books") "Cannot resolve keyword into field."].
Proof.
  intros reg o article book.
  apply (first_rejection_aborts reg o [] [article] book []
           "Cannot resolve keyword into field.").
  - apply sample_wf.
  - apply (bool_decide_unpack _). vm_compute. exact I.
  - apply (bool_decide_unpack _). vm_compute. exact I.
  - apply (bool_decide_unpack _). vm_compute. exact I.
  - reflexivity.
  - repeat constructor. by intros [e He].
  - reflexivity.
Defined.

(** C6, as stated, fails: only the articles are asked for and their index
    exists, yet the command aborts because the index of the books is not
    created. *)
Lemma other_index_not_created_aborts :
  let reg := Sample.registry true false in
  let o := Sample.options INDEX [] ["article"] true false [] [] None in
  targets reg o = [object_target o Sample.ArticleDocument] ∧
  Index_name Sample.ArticleDocument = _name (Sample.articles true) ∧
  exists_ (Sample.articles true) = true ∧
  _manage_document reg o [] =
  MkRun (Exit 1) [Stderr (NotCreated ["books"]); Stderr ListHint] [].
Proof. by split_and!. Qed.

(** C7, on a run: the engine rejects one article of three and one book of
    two; the confirmation is answered at the second prompt. *)
Lemma failures_are_collected_witness :
  let reg := Sample.registry true true in
  let o := Sample.options INDEX [] [] false false [] [] None in
  let stdin := ["maybe"; "Y"; "left"] in
  confirmed o stdin ∧
  outcome (_manage_document reg o stdin) = Ret tt ∧
  (λ e, match e with
        | Update _ _ _ _ _ _ (success, errors) => (success, length errors)
        | _ => (0, 0%nat)
        end) <$> writes (emitted (_manage_document reg o stdin)) =
  [(2, 1%nat); (1, 1%nat)].
Proof.
  intros reg o stdin.
  assert (confirmed o stdin) as Hconfirmed.
  { right. exists ["maybe"], "Y", ["left"].
    split_and!; [done|repeat constructor|];
      apply (bool_decide_unpack _); vm_compute; exact I. }
  assert (¬ preflight_fails reg o) as Hok.
  { apply (bool_decide_unpack _). vm_compute. exact I. }
  destruct (failures_are_collected reg o stdin (sample_wf true true) Hok
              Hconfirmed) as (Hend & Hwrites & _).
  split_and!; [done..|]. by rewrite Hwrites.
Defined.

(** C8, on two filters in either order, of which the row meets one. *)
Lemma conjunction_order_independent_witness :
  let pairs := [("status", VStr "published"); ("title", VStr "Rocq")] in
  let pairs' := [("title", VStr "Rocq"); ("status", VStr "published")] in
  let r := [("title", VStr "Rocq")] in
  pairs ≡ₚ pairs' ∧
  passes Sample.has_field (conjunction pairs) r = false ∧
  passes Sample.has_field (conjunction pairs') r = false.
Proof.
  intros pairs pairs' r.
  destruct (conjunction_order_independent Sample.has_field pairs pairs' r
              (perm_swap _ _ _)) as [Hand Horder].
  split; [apply perm_swap|]. split; [|rewrite <- Horder]; by rewrite Hand.
Defined.

(** C9, on three answers. *)
Lemma confirmation_gates_execution_witness :
  let reg := Sample.registry true true in
  let o := Sample.options INDEX [] [] false false [] [] None in
  outcome (_manage_document reg o ["Yes"]) = Ret tt ∧
  outcome (_manage_document reg o ["N"; "yes"]) = Exit 1 ∧
  outcome (_manage_document reg o ["maybe"; "y"]) =
  outcome (_manage_document reg o ["y"]).
Proof.
  intros reg o.
  assert (¬ preflight_fails reg o) as Hok.
  { apply (bool_decide_unpack _). vm_compute. exact I. }
  assert (force o = false) as Hforce by reflexivity.
  split_and!.
  - destruct (confirmation_gates_execution reg o "Yes" [] []
                (sample_wf true true) Hok) as [Hasked _].
    destruct (Hasked Hforce) as (Hyes & _ & _).
    apply Hyes. apply (bool_decide_unpack _). vm_compute. exact I.
  - destruct (confirmation_gates_execution reg o "N" ["yes"] []
                (sample_wf true true) Hok) as [Hasked _].
    destruct (Hasked Hforce) as (_ & Hno & _).
    apply Hno. apply (bool_decide_unpack _). vm_compute. exact I.
  - destruct (confirmation_gates_execution reg o "maybe" ["y"] []
                (sample_wf true true) Hok) as [Hasked _].
    destruct (Hasked Hforce) as (_ & _ & Hother).
    apply Hother. apply (bool_decide_unpack _). vm_compute. exact I.
Defined.

(** C10, on a run with and without a database. *)
Lemma database_ignored_for_objects_witness :
  let reg := Sample.registry true true in
  let o := Sample.options INDEX [] ["article"] true false [] [] None in
  _manage_document reg (with_database (Some "replica") o) [] =
  _manage_document reg (with_database None o) [].
Proof.
  intros reg o.
  destruct (database_ignored_for_objects reg o [] (Some "replica") None
              (sample_wf true true)) as [Hobjects _].
  by apply Hobjects.
Defined.

(** ** The further properties on the sample registry *)

(** Decides a closed proposition by computation. *)
Ltac by_computation := apply (bool_decide_unpack _); vm_compute; exact I.

(** X1, on a run: the second object name is the first unknown one; the
    third name and the index name, unknown too, are not reported. *)
Lemma first_unknown_object_reported_witness :
  let reg := Sample.registry true true in
  let o := Sample.options INDEX ["nowhere"] ["article"; "Author"; "Reader"]
             true false [] [] None in
  _manage_document reg o [] =
  MkRun (Exit 1) [Stderr (UnknownObject "Author" ["article"; "book"])] [].
Proof.
  intros reg o.
  apply (first_unknown_object_reported reg o [] ["article"] "Author"
           ["Reader"]); [reflexivity|by_computation..].
Defined.

(** X2, on a run: of the four index names, two are unknown, one of them
    given twice. *)
Lemma unknown_indices_all_reported_witness :
  let reg := Sample.registry true true in
  let o := Sample.options INDEX ["drafts"; "articles"; "drafts"; "notes"] []
             true false [] [] None in
  ∃ unknown,
    _manage_document reg o [] =
    MkRun (Exit 1) [Stderr (UnknownIndices unknown (known_name reg))] [] ∧
    NoDup unknown ∧
    ∀ name, name ∈ unknown ↔ name ∈ indices o ∧ name ∉ known_name reg.
Proof.
  intros reg o.
  apply (unknown_indices_all_reported reg o []); by_computation.
Defined.

(** X3, on a run: the index names in another order, one of them twice. *)
Lemma index_names_as_a_set_witness :
  let reg := Sample.registry true true in
  let o := Sample.options INDEX [] [] true false [] [] None in
  _manage_document reg (with_indices ["books"; "articles"; "books"] o) [] =
  _manage_document reg (with_indices ["articles"; "books"] o) [].
Proof.
  intros reg o. apply index_names_as_a_set; [by_computation|].
  intros name. rewrite !elem_of_cons. tauto.
Defined.

(** X4, on a run with object names. *)
Lemma missing_only_for_index_action_witness :
  let reg := Sample.registry true true in
  let o := Sample.options INDEX [] ["article"] true false [] [] None in
  _manage_document reg (with_missing true o) [] =
  _manage_document reg (with_missing false o) [].
Proof.
  intros reg o. apply missing_only_for_index_action. by left.
Defined.

(** X5, on a run: two lines that answer nothing. *)
Lemma unanswered_confirmation_raises_witness :
  let reg := Sample.registry true true in
  let o := Sample.options INDEX [] [] false false [] [] None in
  let r := _manage_document reg o ["maybe"; "perhaps"] in
  outcome r = Raise EOFError ∧ prompts (emitted r) = 3%nat ∧
  writes (emitted r) = [].
Proof.
  intros reg o r.
  apply (unanswered_confirmation_raises reg o ["maybe"; "perhaps"]);
    [apply sample_wf|by_computation|reflexivity|by_computation].
Defined.

(** X6, on a run: a no behind one line that answers nothing. *)
Lemma confirmation_reads_up_to_answer_witness :
  let reg := Sample.registry true true in
  let o := Sample.options INDEX [] [] false false [] [] None in
  let r := _manage_document reg o ["maybe"; "NO"; "yes"] in
  prompts (emitted r) = 2%nat ∧ unread r = ["yes"] ∧ outcome r = Exit 1 ∧
  writes (emitted r) = [].
Proof.
  intros reg o r.
  apply (confirmation_reads_up_to_answer reg o ["maybe"] "NO" ["yes"]);
    [apply sample_wf|by_computation|reflexivity|by_computation..].
Defined.

(** X7, on a run that writes both targets. *)
Lemma forced_silent_run_writes_no_stdout_witness :
  let reg := Sample.registry true true in
  let o := with_verbosity 0
             (Sample.options INDEX [] [] true false [] [] None) in
  Forall (λ e, is_stdout e = false) (emitted (_manage_document reg o [])) ∧
  length (writes (emitted (_manage_document reg o []))) = 2%nat.
Proof.
  intros reg o. split; [|reflexivity].
  by apply forced_silent_run_writes_no_stdout.
Defined.

(** X8, on three errors, two of them for the same reason. *)
Lemma report_groups_errors_witness :
  let o := Sample.options INDEX [] [] true false [] [] None in
  let refused : Descriptor :=
    {[ "index" := ({[ "result" := "refused" ]} : gmap string string) ]} in
  let late : Descriptor :=
    {[ "index" := ({[ "result" := "timeout" ]} : gmap string string) ]} in
  ∃ reasons,
    report o Sample.ArticleDocument 0 [refused; late; refused] =
    [Grouped 0 "Article" "indexed" 3 reasons] ∧
    NoDup reasons.*1 ∧
    (∀ r n,
       (r, n) ∈ reasons ↔
       n = reported_as INDEX r [refused; late; refused] ∧ 0 < n) ∧
    foldr Z.add 0 reasons.*2 = 3.
Proof.
  intros o refused late.
  by apply (report_groups_errors o Sample.ArticleDocument 0
              [refused; late; refused]).
Defined.

(** X9, on two errors: one for another action, one without a result. *)
Lemma errors_without_result_are_unknown_witness :
  let o := Sample.options INDEX [] [] true false [] [] None in
  let other : Descriptor :=
    {[ "delete" := ({[ "result" := "not_found" ]} : gmap string string) ]} in
  let bare : Descriptor :=
    {[ "index" := ({[ "status" := "400" ]} : gmap string string) ]} in
  report o Sample.ArticleDocument 1 [other; bare] =
  [Grouped 1 "Article" "indexed" 2 [("unknown error", 2)]].
Proof.
  intros o other bare.
  apply (errors_without_result_are_unknown o Sample.ArticleDocument 1
           [other; bare]); [reflexivity|done|].
  apply Forall_cons_2; [left; by vm_compute|].
  apply Forall_cons_2; [|constructor].
  right. eexists. split; by vm_compute.
Defined.

(** X11, on a run: both object names pass the name check. *)
Lemma object_names_select_in_lower_case_only_witness :
  let reg := Sample.registry true true in
  let o := Sample.options INDEX [] ["Article"; "BOOK"] true false [] [] None in
  outcome (_manage_document reg o []) = Ret tt ∧
  targets reg o = [] ∧
  writes (emitted (_manage_document reg o [])) = [].
Proof.
  intros reg o. split; [reflexivity|].
  apply object_names_select_in_lower_case_only;
    [apply sample_wf|done|by_computation].
Defined.

(** X13, on the sample registry: one application for each index. *)
Lemma listing_groups_by_application_witness :
  let reg := Sample.registry true false in
  ∃ groups,
    __list_index Sample.module_of Sample.count_of reg =
    ([CountDocuments "articles"] ++
     (groups ≫= λ group, [WriteLabel group.1; WriteLines group.2]),
     None) ∧
    NoDup groups.*1 ∧
    ∀ app lines,
      (app, lines) ∈ groups ↔
      lines ≠ [] ∧
      lines =
      line_of Sample.count_of <$>
        filter (λ i, app_of Sample.module_of i = Some app) (get_indices reg).
Proof.
  intros reg.
  apply (listing_groups_by_application Sample.module_of Sample.count_of reg).
  repeat constructor; eexists; (split; [reflexivity|by vm_compute]).
Defined.

(** X14, on the sample registry: the articles are counted, the books
    raise, and nothing is written. *)
Lemma listing_raises_without_a_package_witness :
  let reg := Sample.registry true true in
  __list_index Sample.flat_module_of Sample.count_of reg =
  ([CountDocuments "articles"], Some IndexError) ∧
  (__list_index Sample.flat_module_of Sample.count_of reg).2 =
  Some IndexError ∧
  Forall (λ e, is_list_write e = false)
    (__list_index Sample.flat_module_of Sample.count_of reg).1.
Proof.
  intros reg. split; [reflexivity|].
  apply listing_raises_without_a_package.
  apply Exists_cons_tl, Exists_cons_hd. right.
  eexists. by split.
Defined.

(** X15, on a run with a filter and an exclude. *)
Lemma targets_written_as_counted_witness :
  let reg := Sample.registry true true in
  let o := Sample.options UPDATE [] ["article"] true false
             [("status", VStr "published")] [("title", VStr "Draft")] None in
  let kwargs :=
    {| kw_db_alias := None;
       kw_filter_ := Some (QLeaf "status" (VStr "published"));
       kw_exclude := Some (QLeaf "title" (VStr "Draft"));
       kw_count := None |} in
  querysets (emitted (_manage_document reg o [])) =
  [GetQueryset Sample.ArticleDocument (kw_filter_ kwargs)
     (kw_exclude kwargs) (kw_count kwargs)] ∧
  indexings (emitted (_manage_document reg o [])) =
  [GetIndexingQueryset Sample.ArticleDocument
     {| ia_verbose := 1; ia_action := UPDATE; ia_batch_size := None;
        ia_batch_type := "offset"; ia_kwargs := kwargs |}].
Proof.
  intros reg o kwargs.
  apply (targets_written_as_counted reg o []);
    [apply sample_wf|by_computation|by left].
Defined.

(** X16, on a run over both indices, with an exclude. *)
Lemma missing_excludes_stored_ids_witness :
  let reg := Sample.registry true true in
  let o := Sample.options INDEX [] [] true true []
             [("title", VStr "Draft")] None in
  Forall2
    (λ e index,
       ∃ document,
         head (_doc_types index) = Some document ∧
         e = GetQueryset document None
               (Some (QAnd (QLeaf "title" (VStr "Draft"))
                        (QLeaf "pk__in" (VList (VStr <$> stored_ids index)))))
               None)
    (querysets (emitted (_manage_document reg o [])))
    [Sample.articles true; Sample.books true].
Proof.
  intros reg o.
  apply (missing_excludes_stored_ids reg o []);
    [apply sample_wf|by_computation|reflexivity..].
Defined.

(** X17, on a run: the index of the books is not created. *)
Lemma failed_preflight_asks_nothing_witness :
  let reg := Sample.registry true false in
  let o := Sample.options INDEX [] [] false false [] [] None in
  let r := _manage_document reg o ["yes"] in
  prompts (emitted r) = 0%nat ∧ unread r = ["yes"] ∧
  Forall (λ e, is_stdout e = false) (emitted r).
Proof.
  intros reg o r.
  apply (failed_preflight_asks_nothing reg o ["yes"]);
    [apply sample_wf|by_computation].
Defined.
